(** * ACE Arena: matchmaking and round resolution of [server.js]

    A shallow embedding of the Socket.IO game server.  The four global
    tables ([games], [players], [queues], [leaderboard]) form an explicit
    state record; every [socket.on] handler is a function from the state,
    the calling socket id and the payload to the new state and the list of
    notifications it emits.  Objects that JavaScript mutates in place
    through a reference taken from a [Map] are written back under the key
    they were fetched from.  The results of [Math.random()] are inputs of
    the handlers that draw them. *)

From Stdlib Require Import QArith Qround.
From stdpp Require Import gmap strings list fin_maps sorting.

Local Open Scope string_scope.
Local Open Scope list_scope.
Local Open Scope Z_scope.

(** ** JavaScript values *)

(** The values a JSON payload field can carry, and [undefined] for an
    absent field.  Numbers are the integral ones.  An array or an object
    is held by the string it converts to when it is used as a property
    key, which is all the handlers can tell of it besides that it is truthy
    and identical to no other value: ["rock"] for [['rock']], ["a,b"] for
    [['a', 'b']], the empty string for [[]], ["[object Object]"] for [{}].
    An object whose conversion throws (one with an own [toString] member)
    has no such string and is not among these values: a handler that uses
    it as a property key stops at a [TypeError] there. *)
Inductive jsval : Set :=
  | VUndefined
  | VNull
  | VBool (b : bool)
  | VNum (n : Z)
  | VStr (s : string)
  | VObj (k : string).

#[global] Instance jsval_eq_dec : EqDecision jsval.
Proof. solve_decision. Defined.

(** [!!v]: the falsy values are [undefined], [null], [false], [0], [""];
    arrays and objects are truthy. *)
Definition truthy (v : jsval) : bool :=
  match v with
  | VUndefined | VNull => false
  | VBool b => b
  | VNum n => negb (n =? 0)
  | VStr s => negb (String.eqb s "")
  | VObj _ => true
  end.

(** [a === b], for a value of a payload against a constant or against a
    value of another payload: scalars are compared by value, an array or an
    object is identical to neither. *)
Definition strict_eq (a b : jsval) : bool :=
  match a, b with
  | VUndefined, VUndefined | VNull, VNull => true
  | VBool x, VBool y => Bool.eqb x y
  | VNum x, VNum y => x =? y
  | VStr x, VStr y => String.eqb x y
  | _, _ => false
  end.
Arguments strict_eq : simpl nomatch.

(** What [obj[key]] finds on an object literal: an own property, nothing
    ([undefined]), or a member inherited from [Object.prototype], which is
    a function or an object and so never [===] to a scalar. *)
Inductive prop_lookup (A : Type) : Type :=
  | Own (v : A)
  | Absent
  | Inherited.
Arguments Own {A} v.
Arguments Absent {A}.
Arguments Inherited {A}.

Definition object_prototype_keys : list string :=
  [ "constructor"; "__defineGetter__"; "__defineSetter__"; "hasOwnProperty";
    "__lookupGetter__"; "__lookupSetter__"; "isPrototypeOf";
    "propertyIsEnumerable"; "toString"; "valueOf"; "__proto__";
    "toLocaleString" ].

Definition inherited (k : string) : bool :=
  existsb (String.eqb k) object_prototype_keys.

(** The property key a value is converted to by [obj[v]], when it can
    name a property of the objects used here: a string is its own key, an
    array or object converts to its string, and the other scalars print as
    ["undefined"], ["null"], ["true"], ["false"] or digits, which name
    none. *)
Definition key_of (v : jsval) : option string :=
  match v with
  | VStr s => Some s
  | VObj k => Some k
  | _ => None
  end.

(** ** Helper functions *)

(** [rollDice]: [Math.floor(Math.random() * 6) + 1], on the number [u]
    that [Math.random()] returned.  The product is taken exactly, where
    the code floors the product rounded to a double: the face can differ
    for a draw within rounding distance below a multiple of 1/6.  The
    properties below concern how two rolls from 1 to 6 are compared and
    scored, not which draw gives which face. *)
Definition rollDice (u : Q) : Z := Qfloor (u * 6)%Q + 1.

(** [getAIMove]: [['rock','paper','scissors'][Math.floor(Math.random()*3)]],
    with the product taken exactly as in [rollDice]; all that is used
    below of the move of the AI is that it is truthy. *)
Definition getAIMove (u : Q) : jsval :=
  match Qfloor (u * 3)%Q with
  | 0 => VStr "rock"
  | 1 => VStr "paper"
  | 2 => VStr "scissors"
  | _ => VUndefined
  end.

Inductive rps_outcome : Set := tie_ | p1_ | p2_.

#[global] Instance rps_outcome_eq_dec : EqDecision rps_outcome.
Proof. solve_decision. Defined.

(** The table [wins] of [getRPSResult], read at key [p1]. *)
Definition wins (p1 : jsval) : prop_lookup jsval :=
  match key_of p1 with
  | Some k =>
      if String.eqb k "rock" then Own (VStr "scissors")
      else if String.eqb k "paper" then Own (VStr "rock")
      else if String.eqb k "scissors" then Own (VStr "paper")
      else if inherited k then Inherited
      else Absent
  | None => Absent
  end.

Definition getRPSResult (p1 p2 : jsval) : rps_outcome :=
  if strict_eq p1 p2 then tie_
  else
    let beaten :=
      match wins p1 with
      | Own v => strict_eq v p2
      | Absent => strict_eq VUndefined p2
      | Inherited => false
      end in
    if beaten then p1_ else p2_.

(** The three canonical choices. *)
Inductive rps_move : Set := rock | paper | scissors.

#[global] Instance rps_move_eq_dec : EqDecision rps_move.
Proof. solve_decision. Defined.

Definition rps_val (m : rps_move) : jsval :=
  match m with
  | rock => VStr "rock"
  | paper => VStr "paper"
  | scissors => VStr "scissors"
  end.

Definition canonical (v : jsval) : bool :=
  strict_eq v (VStr "rock") || strict_eq v (VStr "paper")
  || strict_eq v (VStr "scissors").


(** Whether a value is an array or an object. *)
Definition is_obj (v : jsval) : bool :=
  match v with VObj _ => true | _ => false end.

(** Standard cyclic dominance. *)
Definition beats (a b : rps_move) : bool :=
  match a, b with
  | rock, scissors | scissors, paper | paper, rock => true
  | _, _ => false
  end.


(** ** Data model *)

Inductive status_t : Set := playing | ended.

#[global] Instance status_eq_dec : EqDecision status_t.
Proof. solve_decision. Defined.

Inductive result_t : Set := win | lose | tie.

#[global] Instance result_eq_dec : EqDecision result_t.
Proof. solve_decision. Defined.

(** One side of a game, [game.player1] or [game.player2].  [player1] is
    built without an [isAI] property; reading it gives [undefined], which
    is falsy, and it is held here as [false]. *)
Module Side.
Record t : Set := mk
  { odId : string; name : string; score : Z; move : jsval; isAI : bool }.
Definition set_move (v : jsval) (s : t) : t :=
  mk (odId s) (name s) (score s) v (isAI s).
Definition add_score (d : Z) (s : t) : t :=
  mk (odId s) (name s) (score s + d) (move s) (isAI s).
End Side.

(** A game object.  [createdAt] is never read and is left out. *)
Module Game.
Record t : Set := mk
  { id : string; type : jsval; player1 : Side.t; player2 : Side.t;
    status : status_t; round : Z }.
Definition set_player1 (p : Side.t) (g : t) : t :=
  mk (id g) (type g) p (player2 g) (status g) (round g).
Definition set_player2 (p : Side.t) (g : t) : t :=
  mk (id g) (type g) (player1 g) p (status g) (round g).
Definition set_status (st : status_t) (g : t) : t :=
  mk (id g) (type g) (player1 g) (player2 g) st (round g).
Definition set_round (r : Z) (g : t) : t :=
  mk (id g) (type g) (player1 g) (player2 g) (status g) r.
End Game.

(** A player record of the [players] map. *)
Module Player.
Record t : Set := mk
  { odId : string; name : string; currentGame : option string }.
Definition set_currentGame (c : option string) (p : t) : t :=
  mk (odId p) (name p) c.
End Player.

(** A leaderboard entry. *)
Module Entry.
Record t : Set := mk
  { odId : string; name : string; wins : Z; losses : Z; score : Z }.
End Entry.

(** [queues = { dice: [], rps: [] }]. *)
Module Queues.
Record t : Set := mk { dice : list string; rps : list string }.

(** [queues[gameType]]. *)
Definition get (gameType : jsval) (q : t) : prop_lookup (list string) :=
  match key_of gameType with
  | Some k =>
      if String.eqb k "dice" then Own (dice q)
      else if String.eqb k "rps" then Own (rps q)
      else if inherited k then Inherited
      else Absent
  | None => Absent
  end.

(** [queues[gameType] = l], for one of the two own keys. *)
Definition set (gameType : jsval) (l : list string) (q : t) : t :=
  match key_of gameType with
  | Some k =>
      if String.eqb k "dice" then mk l (rps q)
      else if String.eqb k "rps" then mk (dice q) l
      else q
  | None => q
  end.
End Queues.

(** The leaderboard is a [Map]: its values are listed in insertion order by
    [getTopPlayers], so it is kept as the list of its entries in that
    order, one per key. *)
Definition Leaderboard := list Entry.t.

Record State : Type := mkState
  { games : gmap string Game.t;
    players : gmap string Player.t;
    queues : Queues.t;
    leaderboard : Leaderboard }.

Definition initial : State :=
  mkState ∅ ∅ (Queues.mk [] []) [].

(** ** Notifications *)

(** The payloads of the emitted events, named after the event. *)
Inductive Event : Type :=
  | ev_registered (playerId name : string) (top : list Entry.t)
  | ev_error (message : string)
  | ev_queued (gameType : jsval) (position : nat)
  | ev_game_start (gameId : string) (gameType : jsval)
      (you_name : string) (you_score : Z)
      (opp_name : string) (opp_score : Z) (opp_isAI : bool)
  | ev_left_queue (gameType : jsval)
  | ev_round_result (round : Z) (yourMove opponentMove : jsval)
      (result : option result_t) (scores_you scores_opponent : Z)
  | ev_waiting (message : string)
  | ev_opponent_moved (message : string)
  | ev_opponent_left (message : string)
  | ev_left_game
  | ev_leaderboard (top : list Entry.t).

(** An emitted event with the socket id it is addressed to: [socket.emit]
    addresses the caller, [io.to(x).emit] the socket whose id is [x]. *)
Definition Emit : Type := string * Event.

(** A handler either runs to its end or stops at an uncaught [TypeError];
    both carry the state reached and the events emitted so far. *)
Inductive Outcome : Type :=
  | Done (s : State) (out : list Emit)
  | Threw (s : State) (out : list Emit).

Definition state_of (o : Outcome) : State :=
  match o with Done s _ | Threw s _ => s end.

Definition emits_of (o : Outcome) : list Emit :=
  match o with Done _ out | Threw _ out => out end.

Definition threw (o : Outcome) : bool :=
  match o with Done _ _ => false | Threw _ _ => true end.

(** ** Leaderboard *)

Definition lb_get (odId : string) (lb : Leaderboard) : option Entry.t :=
  List.find (fun e => String.eqb (Entry.odId e) odId) lb.

Definition lb_has (odId : string) (lb : Leaderboard) : bool :=
  match lb_get odId lb with Some _ => true | None => false end.

Definition entry_won (e : Entry.t) : Entry.t :=
  Entry.mk (Entry.odId e) (Entry.name e) (Entry.wins e + 1) (Entry.losses e)
    (Entry.score e + 10).

Definition entry_lost (e : Entry.t) : Entry.t :=
  Entry.mk (Entry.odId e) (Entry.name e) (Entry.wins e) (Entry.losses e + 1)
    (Entry.score e).

(** [updateLeaderboard]: the entry stored under [odId], if there is one, is
    changed in place. *)
Fixpoint updateLeaderboard (odId : string) (won : bool) (lb : Leaderboard)
  : Leaderboard :=
  match lb with
  | [] => []
  | e :: rest =>
      if String.eqb (Entry.odId e) odId
      then (if won then entry_won e else entry_lost e) :: rest
      else e :: updateLeaderboard odId won rest
  end.

(** [Array.prototype.sort] is stable: with the comparator
    [(a, b) => b.score - a.score] an entry stays behind the earlier entries
    of the same score. *)
Fixpoint insert_by_score (x : Entry.t) (l : list Entry.t) : list Entry.t :=
  match l with
  | [] => [x]
  | y :: l' =>
      if Entry.score x <? Entry.score y then y :: insert_by_score x l'
      else x :: l
  end.

Definition sort_by_score (l : list Entry.t) : list Entry.t :=
  foldr insert_by_score [] l.

Definition getTopPlayers (limit : nat) (lb : Leaderboard) : list Entry.t :=
  take limit (sort_by_score lb).

(** ** Games *)

(** [createGame]; [gid] is what [generateId()] returned. *)
Definition createGame (gid : string) (type : jsval)
    (p1_odId p1_name p2_odId p2_name : string)
    (isAI : bool) (gs : gmap string Game.t) : Game.t * gmap string Game.t :=
  let game :=
    Game.mk gid type
      (Side.mk p1_odId p1_name 0 VNull false)
      (Side.mk p2_odId p2_name 0 VNull isAI)
      playing 1 in
  (game, <[gid := game]> gs).

(** What [processRound] returns. *)
Record RoundInfo : Set := mkRoundInfo
  { p1Move : jsval; p2Move : jsval;
    p1Result : option result_t; p2Result : option result_t;
    isPlayer1 : bool }.

Definition is_result (r : result_t) (o : option result_t) : bool :=
  bool_decide (o = Some r).

(** [processRound]: [u1] and [u2] are the two numbers [Math.random()]
    returns to the calls of [rollDice], drawn for a dice game only. *)
Definition processRound (game : Game.t) (lb : Leaderboard) (u1 u2 : Q)
  : Game.t * Leaderboard * RoundInfo :=
  let p1Move := Side.move (Game.player1 game) in
  let p2Move := Side.move (Game.player2 game) in
  let '(game1, p1Result, p2Result, p1Display, p2Display) :=
    if strict_eq (Game.type game) (VStr "dice") then
      let p1Roll := rollDice u1 in
      let p2Roll := rollDice u2 in
      if p1Roll >? p2Roll then
        (Game.set_player1 (Side.add_score 10 (Game.player1 game)) game,
         Some win, Some lose, VNum p1Roll, VNum p2Roll)
      else if p1Roll <? p2Roll then
        (Game.set_player2 (Side.add_score 10 (Game.player2 game)) game,
         Some lose, Some win, VNum p1Roll, VNum p2Roll)
      else (game, Some tie, Some tie, VNum p1Roll, VNum p2Roll)
    else if strict_eq (Game.type game) (VStr "rps") then
      match getRPSResult p1Move p2Move with
      | p1_ =>
        (Game.set_player1 (Side.add_score 15 (Game.player1 game)) game,
         Some win, Some lose, p1Move, p2Move)
      | p2_ =>
        (Game.set_player2 (Side.add_score 15 (Game.player2 game)) game,
         Some lose, Some win, p1Move, p2Move)
      | tie_ => (game, Some tie, Some tie, p1Move, p2Move)
      end
    else (game, None, None, VUndefined, VUndefined) in
  let game2 := Game.set_round (Game.round game1 + 1) game1 in
  let lb' :=
    if negb (Side.isAI (Game.player2 game2)) && negb (is_result tie p1Result)
    then
      updateLeaderboard (Side.odId (Game.player2 game2)) (is_result win p2Result)
        (updateLeaderboard (Side.odId (Game.player1 game2))
           (is_result win p1Result) lb)
    else lb in
  (game2, lb', mkRoundInfo p1Display p2Display p1Result p2Result true).

(** ** State updates *)

Definition set_games (gs : gmap string Game.t) (s : State) : State :=
  mkState gs (players s) (queues s) (leaderboard s).
Definition set_players (ps : gmap string Player.t) (s : State) : State :=
  mkState (games s) ps (queues s) (leaderboard s).
Definition set_queues (q : Queues.t) (s : State) : State :=
  mkState (games s) (players s) q (leaderboard s).
Definition set_leaderboard (lb : Leaderboard) (s : State) : State :=
  mkState (games s) (players s) (queues s) lb.

(** A session reference is truthy when it is a non-empty id. *)
Definition truthy_ref (c : option string) : bool :=
  match c with
  | Some g => negb (String.eqb g "")
  | None => false
  end.

(** [isPlayer1 ? game.player1 : game.player2] and the other side. *)
Definition currentPlayer (isP1 : bool) (g : Game.t) : Side.t :=
  if isP1 then Game.player1 g else Game.player2 g.
Definition opponent (isP1 : bool) (g : Game.t) : Side.t :=
  if isP1 then Game.player2 g else Game.player1 g.
Definition set_currentPlayer (isP1 : bool) (p : Side.t) (g : Game.t) : Game.t :=
  if isP1 then Game.set_player1 p g else Game.set_player2 p g.
Definition set_opponent (isP1 : bool) (p : Side.t) (g : Game.t) : Game.t :=
  if isP1 then Game.set_player2 p g else Game.set_player1 p g.

(** ** The handlers *)

(** [socket.on('register')]; [name] is [data.name] when it is a string. *)
Definition on_register (s : State) (sid : string) (name : option string)
  : State * list Emit :=
  let pname :=
    match name with
    | Some n => if String.eqb n "" then "Player_" +:+ String.substring 0 4 sid else n
    | None => "Player_" +:+ String.substring 0 4 sid
    end in
  let player := Player.mk sid pname None in
  let ps := <[sid := player]> (players s) in
  let lb :=
    if negb (lb_has sid (leaderboard s))
    then leaderboard s ++ [Entry.mk sid pname 0 0 0]
    else leaderboard s in
  (mkState (games s) ps (queues s) lb,
   [(sid, ev_registered sid pname (getTopPlayers 10 lb))]).

(** [socket.on('join_queue')]; [gid] is what [generateId()] returns if a
    game is created.  For a [gameType] that is not an own key of [queues],
    [queues[gameType]?.includes] is either skipped (the value is
    [undefined]) and [queues[gameType].push] then throws, or it is not a
    function (an inherited member) and the call itself throws. *)
Definition on_join_queue (s : State) (sid : string) (gameType : jsval)
    (gid : string) : Outcome :=
  match players s !! sid with
  | None => Done s []
  | Some player =>
    match Queues.get gameType (queues s) with
    | Inherited => Threw s []
    | Absent => Threw s []
    | Own q =>
      if bool_decide (sid ∈ q) then
        Done s [(sid, ev_error "Already in queue")]
      else
        let q1 := q ++ [sid] in
        let out := [(sid, ev_queued gameType (length q1))] in
        match q1 with
        | p1Id :: p2Id :: q2 =>
          let s1 := set_queues (Queues.set gameType q2 (queues s)) s in
          match players s !! p1Id, players s !! p2Id with
          | Some p1, Some p2 =>
            let '(game, gs) :=
              createGame gid gameType (Player.odId p1) (Player.name p1)
                (Player.odId p2) (Player.name p2) false (games s) in
            let ps1 :=
              <[p1Id := Player.set_currentGame (Some (Game.id game)) p1]>
                (players s) in
            let ps2 :=
              <[p2Id := Player.set_currentGame (Some (Game.id game)) p2]> ps1 in
            Done (set_players ps2 (set_games gs s1))
              (out ++
               [(p1Id, ev_game_start (Game.id game) gameType
                         (Player.name p1) 0 (Player.name p2) 0 false);
                (p2Id, ev_game_start (Game.id game) gameType
                         (Player.name p2) 0 (Player.name p1) 0 false)])
          | _, _ => Done s1 out
          end
        | _ => Done (set_queues (Queues.set gameType q1 (queues s)) s) out
        end
    end
  end.

(** [socket.on('leave_queue')]: [queues[gameType].filter] throws when
    [queues[gameType]] is [undefined] or has no [filter]. *)
Definition on_leave_queue (s : State) (sid : string) (gameType : jsval)
  : Outcome :=
  match Queues.get gameType (queues s) with
  | Own q =>
    Done (set_queues (Queues.set gameType (filter (λ id, id ≠ sid) q) (queues s)) s)
      [(sid, ev_left_queue gameType)]
  | _ => Threw s []
  end.

(** [socket.on('play_ai')]. *)
Definition on_play_ai (s : State) (sid : string) (gameType : jsval)
    (gid : string) : State * list Emit :=
  match players s !! sid with
  | None => (s, [])
  | Some player =>
    let '(game, gs) :=
      createGame gid gameType (Player.odId player) (Player.name player)
        "AI" "AI Opponent" true (games s) in
    let ps :=
      <[sid := Player.set_currentGame (Some (Game.id game)) player]> (players s) in
    (set_players ps (set_games gs s),
     [(sid, ev_game_start (Game.id game) gameType
              (Player.name player) 0 "AI Opponent" 0 true)])
  end.

(** The numbers [Math.random()] returns during one [move]: to [getAIMove]
    and to the two calls of [rollDice]. *)
Record Rnd : Set := mkRnd { u_ai : Q; u_p1 : Q; u_p2 : Q }.

(** [opponent.move = ...] of the branch [if (opponent.isAI)]. *)
Definition ai_reply (isP1 : bool) (u : Q) (g : Game.t) : Game.t :=
  if Side.isAI (opponent isP1 g) then
    if strict_eq (Game.type g) (VStr "dice") then
      set_opponent isP1 (Side.set_move (VStr "roll") (opponent isP1 g)) g
    else if strict_eq (Game.type g) (VStr "rps") then
      set_opponent isP1 (Side.set_move (getAIMove u) (opponent isP1 g)) g
    else g
  else g.

(** [game.player1.move = null; game.player2.move = null]. *)
Definition reset_moves (g : Game.t) : Game.t :=
  Game.set_player2 (Side.set_move VNull (Game.player2 g))
    (Game.set_player1 (Side.set_move VNull (Game.player1 g)) g).

Definition invalid_state (s : State) (sid : string) : State * list Emit :=
  (s, [(sid, ev_error "Invalid game state")]).

(** [socket.on('move')]. *)
Definition on_move (s : State) (sid gameId : string) (mv : jsval) (r : Rnd)
  : State * list Emit :=
  match games s !! gameId, players s !! sid with
  | Some game, Some player =>
    if bool_decide (Game.status game = playing) then
      let isP1 := String.eqb (Side.odId (Game.player1 game)) sid in
      let game1 :=
        set_currentPlayer isP1 (Side.set_move mv (currentPlayer isP1 game)) game in
      let game2 := ai_reply isP1 (u_ai r) game1 in
      if truthy (Side.move (currentPlayer isP1 game2))
         && truthy (Side.move (opponent isP1 game2)) then
        let '(game3, lb, result) :=
          processRound game2 (leaderboard s) (u_p1 r) (u_p2 r) in
        let to_caller :=
          (sid,
           ev_round_result (Game.round game3 - 1)
             (if isPlayer1 result then p1Move result else p2Move result)
             (if isPlayer1 result then p2Move result else p1Move result)
             (if isPlayer1 result then p1Result result else p2Result result)
             (if isP1 then Side.score (Game.player1 game3)
              else Side.score (Game.player2 game3))
             (if isP1 then Side.score (Game.player2 game3)
              else Side.score (Game.player1 game3))) in
        let to_opponent :=
          (Side.odId (opponent isP1 game3),
           ev_round_result (Game.round game3 - 1)
             (if negb (isPlayer1 result) then p1Move result else p2Move result)
             (if negb (isPlayer1 result) then p2Move result else p1Move result)
             (if negb isP1 then p1Result result else p2Result result)
             (if negb isP1 then Side.score (Game.player1 game3)
              else Side.score (Game.player2 game3))
             (if negb isP1 then Side.score (Game.player2 game3)
              else Side.score (Game.player1 game3))) in
        let out :=
          if negb (Side.isAI (opponent isP1 game3))
          then [to_caller; to_opponent] else [to_caller] in
        (set_leaderboard lb (set_games (<[gameId := reset_moves game3]> (games s)) s),
         out)
      else if negb (Side.isAI (opponent isP1 game2)) then
        (set_games (<[gameId := game2]> (games s)) s,
         [(sid, ev_waiting "Waiting for opponent...");
          (Side.odId (opponent isP1 game2),
           ev_opponent_moved "Opponent has made their move!")])
      else (set_games (<[gameId := game2]> (games s)) s, [])
    else invalid_state s sid
  | _, _ => invalid_state s sid
  end.

(** [game.player1.odId === socket.id ? game.player2 : game.player1]. *)
Definition opponent_of (sid : string) (g : Game.t) : Side.t :=
  opponent (String.eqb (Side.odId (Game.player1 g)) sid) g.

(** [socket.on('leave_game')]. *)
Definition on_leave_game (s : State) (sid : string) : State * list Emit :=
  match players s !! sid with
  | None => (s, [])
  | Some player =>
    if negb (truthy_ref (Player.currentGame player)) then (s, [])
    else
      let gameId := default "" (Player.currentGame player) in
      let '(s1, out) :=
        match games s !! gameId with
        | Some game =>
          let opp := opponent_of sid game in
          let '(lb, out) :=
            if negb (Side.isAI opp) then
              (updateLeaderboard sid false
                 (updateLeaderboard (Side.odId opp) true (leaderboard s)),
               [(Side.odId opp, ev_opponent_left "Opponent left the game")])
            else (leaderboard s, []) in
          (set_leaderboard lb
             (set_games (<[gameId := Game.set_status ended game]> (games s)) s),
           out)
        | None => (s, [])
        end in
      (set_players (<[sid := Player.set_currentGame None player]> (players s1)) s1,
       out ++ [(sid, ev_left_game)])
  end.

(** [socket.on('get_leaderboard')]. *)
Definition on_get_leaderboard (s : State) (sid : string) : State * list Emit :=
  (s, [(sid, ev_leaderboard (getTopPlayers 10 (leaderboard s)))]).

(** [Object.keys(queues).forEach(type => queues[type] = queues[type].filter(...))]. *)
Definition purge_queues (sid : string) (q : Queues.t) : Queues.t :=
  Queues.mk (filter (λ id, id ≠ sid) (Queues.dice q))
    (filter (λ id, id ≠ sid) (Queues.rps q)).

(** [socket.on('disconnect')]. *)
Definition on_disconnect (s : State) (sid : string) : State * list Emit :=
  match players s !! sid with
  | None => (s, [])
  | Some player =>
    let s1 := set_queues (purge_queues sid (queues s)) s in
    let '(s2, out) :=
      if truthy_ref (Player.currentGame player) then
        let gameId := default "" (Player.currentGame player) in
        match games s1 !! gameId with
        | Some game =>
          if bool_decide (Game.status game = playing) then
            let opp := opponent_of sid game in
            (set_games (<[gameId := Game.set_status ended game]> (games s1)) s1,
             if negb (Side.isAI opp)
             then [(Side.odId opp, ev_opponent_left "Opponent disconnected")]
             else [])
          else (s1, [])
        | None => (s1, [])
        end
      else (s1, []) in
    (set_players (delete sid (players s2)) s2, out)
  end.

(** ** Commands and runs *)

(** What a connection can send, with the random draws the handler makes. *)
Inductive Cmd : Set :=
  | Register (name : option string)
  | JoinQueue (gameType : jsval) (gid : string)
  | LeaveQueue (gameType : jsval)
  | PlayAI (gameType : jsval) (gid : string)
  | Move (gameId : string) (mv : jsval) (r : Rnd)
  | LeaveGame
  | GetLeaderboard
  | Disconnect.

Definition returned (r : State * list Emit) : Outcome := Done r.1 r.2.

Definition handle (s : State) (sid : string) (c : Cmd) : Outcome :=
  match c with
  | Register name => returned (on_register s sid name)
  | JoinQueue gameType gid => on_join_queue s sid gameType gid
  | LeaveQueue gameType => on_leave_queue s sid gameType
  | PlayAI gameType gid => returned (on_play_ai s sid gameType gid)
  | Move gameId mv r => returned (on_move s sid gameId mv r)
  | LeaveGame => returned (on_leave_game s sid)
  | GetLeaderboard => returned (on_get_leaderboard s sid)
  | Disconnect => returned (on_disconnect s sid)
  end.

(** Events are handled one after the other; an uncaught exception ends
    the run. *)
Fixpoint run (s : State) (cs : list (string * Cmd)) : Outcome :=
  match cs with
  | [] => Done s []
  | (sid, c) :: cs' =>
    match handle s sid c with
    | Done s1 out1 =>
      match run s1 cs' with
      | Done s2 out2 => Done s2 (out1 ++ out2)
      | Threw s2 out2 => Threw s2 (out1 ++ out2)
      end
    | Threw s1 out1 => Threw s1 out1
    end
  end.

(** Lookups used in statements. *)
Definition game_at (s : State) (gameId : string) : option Game.t :=
  games s !! gameId.
Definition entry_of (s : State) (odId : string) : option Entry.t :=
  lb_get odId (leaderboard s).
Definition received (sid : string) (out : list Emit) : list Event :=
  snd <$> filter (λ e : Emit, e.1 = sid) out.

Definition no_rnd : Rnd := mkRnd 0 0 0.

(** [rounds] resolved one after the other on one game object, as the move
    handler does it: the two pending moves are recorded, [processRound]
    runs on the draws of the round, the pending moves are cleared. *)
Record RoundInput : Set := mkRoundInput
  { in_p1 : jsval; in_p2 : jsval; in_u1 : Q; in_u2 : Q }.

Definition with_moves (m1 m2 : jsval) (g : Game.t) : Game.t :=
  Game.set_player2 (Side.set_move m2 (Game.player2 g))
    (Game.set_player1 (Side.set_move m1 (Game.player1 g)) g).

Fixpoint play_rounds (g : Game.t) (lb : Leaderboard) (rs : list RoundInput)
  : Game.t * Leaderboard :=
  match rs with
  | [] => (g, lb)
  | r :: rs' =>
    let '(g1, lb1, _) :=
      processRound (with_moves (in_p1 r) (in_p2 r) g) lb (in_u1 r) (in_u2 r) in
    play_rounds (reset_moves g1) lb1 rs'
  end.

(** The rounds of a dice game that side 1, or side 2, strictly won. *)
Definition p1_won (r : RoundInput) : bool := rollDice (in_u1 r) >? rollDice (in_u2 r).
Definition p2_won (r : RoundInput) : bool := rollDice (in_u1 r) <? rollDice (in_u2 r).

Definition count_rounds (f : RoundInput → bool) (rs : list RoundInput) : Z :=
  Z.of_nat (length (List.filter f rs)).

(** [Math.random()] returns a number in [0, 1). *)
Definition unit_interval (u : Q) : Prop := (0 <= u)%Q ∧ (u < 1)%Q.

(** The nine pairs of canonical moves. *)
Definition rps_grid : list (rps_move * rps_move) :=
  a ← [rock; paper; scissors]; b ← [rock; paper; scissors]; [(a, b)].

(** ** The steps of the move handler *)

(** Whether [sid] is taken for side 1 of [g]. *)
Definition is_p1 (sid : string) (g : Game.t) : bool :=
  String.eqb (Side.odId (Game.player1 g)) sid.

(** The game object once the move of [sid] is recorded and the AI, if it
    is the opponent, has answered. *)
Definition recorded (sid : string) (mv : jsval) (u : Q) (g : Game.t) : Game.t :=
  ai_reply (is_p1 sid g) u
    (set_currentPlayer (is_p1 sid g)
       (Side.set_move mv (currentPlayer (is_p1 sid g) g)) g).

(** [currentPlayer.move && opponent.move]. *)
Definition both_moved (sid : string) (g : Game.t) : bool :=
  truthy (Side.move (currentPlayer (is_p1 sid g) g))
  && truthy (Side.move (opponent (is_p1 sid g) g)).

Definition is_round_result (e : Event) : bool :=
  match e with ev_round_result _ _ _ _ _ _ => true | _ => false end.

Definition is_error (e : Event) : bool :=
  match e with ev_error _ => true | _ => false end.

(** The moves [ms] sent one after the other by [sid] on the game [gameId]. *)
Fixpoint submit_all (s : State) (sid gameId : string) (ms : list (jsval * Rnd))
  : State * list Emit :=
  match ms with
  | [] => (s, [])
  | (mv, r) :: ms' =>
    let '(s1, out1) := on_move s sid gameId mv r in
    let '(s2, out2) := submit_all s1 sid gameId ms' in
    (s2, out1 ++ out2)
  end.

(** A round that cannot move on: side [f] of [g] (side 1 when [f] is
    [true]) holds the pending value [mv], both sides are human, and the
    round counter and the scores are those of [g0]. *)
Definition stalled (f : bool) (mv : jsval) (g0 g : Game.t) : Prop :=
  Side.odId (Game.player1 g) = Side.odId (Game.player1 g0)
  ∧ Side.isAI (Game.player1 g) = false
  ∧ Side.isAI (Game.player2 g) = false
  ∧ Side.move (currentPlayer f g) = mv
  ∧ Game.round g = Game.round g0
  ∧ Side.score (Game.player1 g) = Side.score (Game.player1 g0)
  ∧ Side.score (Game.player2 g) = Side.score (Game.player2 g0).

Definition no_round_result (out : list Emit) : Prop :=
  Forall (λ e : Emit, is_round_result e.2 = false) out.

(** ** Sample sessions *)

(** Two registered connections ["a"] and ["b"] paired by the [gameType]
    queue into the game ["g1"], and a third registered connection ["c"]
    that is in no game. *)
Definition paired (gameType : string) : State :=
  state_of
    (run initial
       [("a", Register (Some "Ann")); ("b", Register (Some "Bob"));
        ("c", Register (Some "Cy"));
        ("a", JoinQueue (VStr gameType) "g0");
        ("b", JoinQueue (VStr gameType) "g1")]).

(** ["a"] against the AI in the game ["g1"]. *)
Definition versus_ai (gameType : string) : State :=
  state_of
    (run initial
       [("a", Register (Some "Ann")); ("a", PlayAI (VStr gameType) "g1")]).

(** The rps game of ["a"] and ["b"] once ["a"] has played rock. *)
Definition rock_pending : State :=
  (on_move (paired "rps") "a" "g1" (VStr "rock") (mkRnd 0 0 0)).1.

(** A fresh game between two humans with both moves pending. *)
Definition fresh_game (gameType : string) (m1 m2 : jsval) : Game.t :=
  with_moves m1 m2
    (createGame "g1" (VStr gameType) "a" "Ann" "b" "Bob" false ∅).1.

(** Draws of [Math.random()]: [hi] rolls a 6, [lo] rolls a 1. *)
Definition hi : Q := 5 # 6.
Definition lo : Q := 0.

(** ** Orderings, invariants and the stats endpoint *)

(** The order [getTopPlayers] lists entries in: no entry has a higher
    score than one before it. *)
Definition by_score_desc (a b : Entry.t) : Prop := Entry.score b ≤ Entry.score a.

(** The two game types [processRound] and the AI know. *)
Definition recognized (gameType : jsval) : Prop :=
  gameType = VStr "dice" ∨ gameType = VStr "rps".

(** The game types that name one of the two queues: the two strings, and
    any array or object that converts to one of them. *)
Definition names_queue (gameType : jsval) : Prop :=
  key_of gameType = Some "dice" ∨ key_of gameType = Some "rps".

(** [GET /api/stats]: [players.size], [games.size] and the two queue
    lengths. *)
Record Stats : Set := mkStats
  { online : nat; games_count : nat; queue_dice : nat; queue_rps : nat }.

Definition api_stats (s : State) : Stats :=
  mkStats (size (players s)) (size (games s))
    (length (Queues.dice (queues s))) (length (Queues.rps (queues s))).

(** What the handlers keep true of the four tables. *)
Definition queue_ok (ps : gmap string Player.t) (q : list string) : Prop :=
  (length q ≤ 1)%nat ∧ ∀ id, id ∈ q → is_Some (ps !! id).

Definition queues_inv (s : State) : Prop :=
  queue_ok (players s) (Queues.dice (queues s))
  ∧ queue_ok (players s) (Queues.rps (queues s)).

Definition game_ok (k : string) (g : Game.t) : Prop :=
  Game.id g = k
  ∧ 1 ≤ Game.round g
  ∧ 0 ≤ Side.score (Game.player1 g)
  ∧ 0 ≤ Side.score (Game.player2 g)
  ∧ Side.isAI (Game.player1 g) = false
  ∧ (Side.isAI (Game.player2 g) = false →
       names_queue (Game.type g)
       ∧ Side.odId (Game.player1 g) ≠ Side.odId (Game.player2 g)).

Definition games_inv (s : State) : Prop :=
  ∀ k g, games s !! k = Some g → game_ok k g.

Definition entry_ok (e : Entry.t) : Prop :=
  Entry.score e = 10 * Entry.wins e ∧ 0 ≤ Entry.wins e ∧ 0 ≤ Entry.losses e.

Definition leaderboard_inv (s : State) : Prop :=
  Forall entry_ok (leaderboard s)
  ∧ NoDup (Entry.odId <$> leaderboard s)
  ∧ ∀ k, is_Some (players s !! k) → lb_has k (leaderboard s) = true.

Definition players_inv (s : State) : Prop :=
  ∀ k p, players s !! k = Some p →
    Player.odId p = k
    ∧ ∀ g, Player.currentGame p = Some g → is_Some (games s !! g).

Definition Inv (s : State) : Prop :=
  queues_inv s ∧ games_inv s ∧ leaderboard_inv s ∧ players_inv s.

(** The command creates no game under the id [g]. *)
Definition creates_no (g : string) (c : Cmd) : Prop :=
  match c with
  | JoinQueue _ gid | PlayAI _ gid => gid ≠ g
  | _ => True
  end.

(** How a game object and a leaderboard entry may differ from an earlier
    version of themselves. *)
Definition game_advanced (g g' : Game.t) : Prop :=
  Game.id g' = Game.id g
  ∧ Game.type g' = Game.type g
  ∧ Side.odId (Game.player1 g') = Side.odId (Game.player1 g)
  ∧ Side.odId (Game.player2 g') = Side.odId (Game.player2 g)
  ∧ Side.isAI (Game.player2 g') = Side.isAI (Game.player2 g)
  ∧ Game.round g ≤ Game.round g'
  ∧ Side.score (Game.player1 g) ≤ Side.score (Game.player1 g')
  ∧ Side.score (Game.player2 g) ≤ Side.score (Game.player2 g')
  ∧ (Game.status g = ended → g' = g).

Definition entry_advanced (e e' : Entry.t) : Prop :=
  Entry.odId e' = Entry.odId e
  ∧ Entry.name e' = Entry.name e
  ∧ Entry.wins e ≤ Entry.wins e'
  ∧ Entry.losses e ≤ Entry.losses e'
  ∧ Entry.score e ≤ Entry.score e'.

(** The sum of a counter over the leaderboard. *)
Definition total (f : Entry.t → Z) (lb : Leaderboard) : Z :=
  foldr (λ e n, f e + n) 0 lb.

(** The sides of a game that [updateLeaderboard] may be called for have an
    entry: side 1 always, side 2 when it is human. *)
Definition game_listed (lb : Leaderboard) (g : Game.t) : Prop :=
  lb_has (Side.odId (Game.player1 g)) lb = true
  ∧ (Side.isAI (Game.player2 g) = false →
       lb_has (Side.odId (Game.player2 g)) lb = true).

Definition sides_listed (gs : gmap string Game.t) (lb : Leaderboard) : Prop :=
  ∀ k g, gs !! k = Some g → game_listed lb g.

Definition Ledger (s : State) : Prop :=
  sides_listed (games s) (leaderboard s)
  ∧ total Entry.wins (leaderboard s) ≤ total Entry.losses (leaderboard s).

(** Every game between two humans has one of the two strings as its type. *)
Definition human_games_typed (s : State) : Prop :=
  ∀ k g, games s !! k = Some g →
    Side.isAI (Game.player2 g) = false → recognized (Game.type g).

(** The command does not ask for a queue with an array or an object as the
    game type. *)
Definition scalar_type (c : Cmd) : bool :=
  match c with
  | JoinQueue gameType _ => negb (is_obj gameType)
  | _ => true
  end.

(** The commands that can end a game. *)
Definition leaves (c : Cmd) : bool :=
  match c with
  | LeaveGame | Disconnect => true
  | _ => false
  end.

(** * Properties *)

(** ** The resolution functions *)

Lemma rollDice_range (u : Q) : unit_interval u → 1 ≤ rollDice u ≤ 6.
Proof.
  intros [H0 H1]. unfold rollDice.
  assert (0 ≤ Qfloor (u * 6)%Q).
  { change 0 with (Qfloor 0). apply Qfloor_resp_le.
    apply Qmult_le_0_compat; [done | discriminate]. }
  assert (Qfloor (u * 6)%Q < 6).
  { rewrite Zlt_Qlt. apply Qle_lt_trans with (u * 6)%Q; [apply Qfloor_le|].
    change (inject_Z 6) with (1 * 6)%Q.
    apply Qmult_lt_compat_r; [reflexivity | done]. }
  lia.
Qed.

Lemma getRPSResult_grid (a b : rps_move) :
  getRPSResult (rps_val a) (rps_val b) =
    if bool_decide (a = b) then tie_ else if beats a b then p1_ else p2_.
Proof. by destruct a, b. Qed.

Lemma strict_eq_eq (a b : jsval) : strict_eq a b = true → a = b.
Proof.
  destruct a, b; simpl; try done.
  - by intros ->%Bool.eqb_prop.
  - by intros ->%Z.eqb_eq.
  - by intros ->%String.eqb_eq.
Qed.


Lemma strict_eq_refl (a : jsval) : is_obj a = false → strict_eq a a = true.
Proof.
  destruct a; simpl; try done; intros _.
  - by destruct b.
  - apply Z.eqb_refl.
  - apply String.eqb_refl.
Qed.





Lemma processRound_dice (g : Game.t) (lb : Leaderboard) (u1 u2 : Q) :
  Game.type g = VStr "dice" →
  ∃ lb',
    processRound g lb u1 u2 =
      (Game.set_round (Game.round g + 1)
         (if rollDice u1 >? rollDice u2
          then Game.set_player1 (Side.add_score 10 (Game.player1 g)) g
          else if rollDice u1 <? rollDice u2
          then Game.set_player2 (Side.add_score 10 (Game.player2 g)) g
          else g),
       lb',
       mkRoundInfo (VNum (rollDice u1)) (VNum (rollDice u2))
         (Some (if rollDice u1 >? rollDice u2 then win
                else if rollDice u1 <? rollDice u2 then lose else tie))
         (Some (if rollDice u1 >? rollDice u2 then lose
                else if rollDice u1 <? rollDice u2 then win else tie))
         true).
Proof.
  intros Ht. unfold processRound. rewrite Ht. simpl.
  destruct (rollDice u1 >? rollDice u2); [eexists; reflexivity|].
  destruct (rollDice u1 <? rollDice u2); eexists; reflexivity.
Qed.

Lemma play_rounds_dice (rs : list RoundInput) :
  ∀ (g : Game.t) (lb : Leaderboard),
    Game.type g = VStr "dice" →
    let g' := (play_rounds g lb rs).1 in
    Side.score (Game.player1 g') =
      Side.score (Game.player1 g) + 10 * count_rounds p1_won rs
    ∧ Side.score (Game.player2 g') =
      Side.score (Game.player2 g) + 10 * count_rounds p2_won rs
    ∧ Game.round g' = Game.round g + Z.of_nat (length rs).
Proof.
  induction rs as [|r rs IH]; intros g lb Ht; simpl.
  - unfold count_rounds; simpl. lia.
  - destruct (processRound_dice (with_moves (in_p1 r) (in_p2 r) g) lb
                (in_u1 r) (in_u2 r) Ht) as [lb' ->].
    match goal with |- context [play_rounds ?g1 lb' rs] =>
      specialize (IH g1 lb'); cbv zeta in IH;
      destruct IH as (IH1 & IH2 & IH3)
    end.
    { by repeat case_match. }
    rewrite IH1, IH2, IH3. unfold count_rounds, p1_won, p2_won in *. simpl.
    destruct (Z.gtb_spec (rollDice (in_u1 r)) (rollDice (in_u2 r)));
      destruct (Z.ltb_spec (rollDice (in_u1 r)) (rollDice (in_u2 r)));
      simpl; lia.
Qed.

(** C8.  On the nine pairs of canonical moves [getRPSResult] is decided by
    the cyclic dominance rock > scissors > paper > rock: side 1 wins exactly
    when its move beats the other, which is exactly when the swapped pair
    is a win of side 2; the ties are the three pairs of identical moves; and
    [processRound] adds 15 to the score of the round's winner and nothing to
    the other side, nothing to either on a tie. *)
Theorem rps_resolution_grid (a b : rps_move) (g g' : Game.t)
    (lb lb' : Leaderboard) (u1 u2 : Q) (info : RoundInfo) :
  Game.type g = VStr "rps" →
  Side.move (Game.player1 g) = rps_val a →
  Side.move (Game.player2 g) = rps_val b →
  processRound g lb u1 u2 = (g', lb', info) →
  getRPSResult (rps_val a) (rps_val b) =
    (if bool_decide (a = b) then tie_ else if beats a b then p1_ else p2_)
  ∧ (getRPSResult (rps_val a) (rps_val b) = p1_
     ↔ getRPSResult (rps_val b) (rps_val a) = p2_)
  ∧ (getRPSResult (rps_val a) (rps_val b) = p1_ ↔ beats a b = true)
  ∧ (getRPSResult (rps_val a) (rps_val b) = p2_ ↔ beats b a = true)
  ∧ (getRPSResult (rps_val a) (rps_val b) = tie_ ↔ a = b)
  ∧ length (List.filter
              (λ p, bool_decide (getRPSResult (rps_val p.1) (rps_val p.2) = tie_))
              rps_grid) = 3%nat
  ∧ Side.score (Game.player1 g') =
      Side.score (Game.player1 g) + (if beats a b then 15 else 0)
  ∧ Side.score (Game.player2 g') =
      Side.score (Game.player2 g) + (if beats b a then 15 else 0)
  ∧ p1Result info =
      Some (if bool_decide (a = b) then tie else if beats a b then win else lose)
  ∧ p2Result info =
      Some (if bool_decide (a = b) then tie else if beats b a then win else lose).
Proof.
  intros Ht H1 H2. unfold processRound. rewrite Ht, H1, H2. simpl.
  destruct a, b; simpl; intros [= <- <- <-]; simpl;
    (repeat split; try done; try lia).
Qed.

(** C9.  In a dice round the two rolls lie in [1, 6]; the higher roll wins
    and gains 10 while the other side gains nothing, and equal rolls tie
    with no change.  Over any number of rounds played on a dice game, each
    side's score has grown by 10 times the number of rounds it strictly
    won, so from the initial score 0 it is 10 times that number. *)
Theorem dice_resolution (g g' : Game.t) (lb lb' : Leaderboard) (u1 u2 : Q)
    (info : RoundInfo) (rs : list RoundInput) :
  Game.type g = VStr "dice" →
  unit_interval u1 → unit_interval u2 →
  processRound g lb u1 u2 = (g', lb', info) →
  let a := rollDice u1 in
  let b := rollDice u2 in
  (1 ≤ a ≤ 6 ∧ 1 ≤ b ≤ 6)
  ∧ p1Move info = VNum a ∧ p2Move info = VNum b
  ∧ (a > b →
       p1Result info = Some win ∧ p2Result info = Some lose
       ∧ Side.score (Game.player1 g') = Side.score (Game.player1 g) + 10
       ∧ Side.score (Game.player2 g') = Side.score (Game.player2 g))
  ∧ (a < b →
       p1Result info = Some lose ∧ p2Result info = Some win
       ∧ Side.score (Game.player1 g') = Side.score (Game.player1 g)
       ∧ Side.score (Game.player2 g') = Side.score (Game.player2 g) + 10)
  ∧ (a = b →
       p1Result info = Some tie ∧ p2Result info = Some tie
       ∧ Side.score (Game.player1 g') = Side.score (Game.player1 g)
       ∧ Side.score (Game.player2 g') = Side.score (Game.player2 g))
  ∧ (Side.score (Game.player1 g) = 0 → Side.score (Game.player2 g) = 0 →
       Side.score (Game.player1 (play_rounds g lb rs).1)
         = 10 * count_rounds p1_won rs
       ∧ Side.score (Game.player2 (play_rounds g lb rs).1)
         = 10 * count_rounds p2_won rs
       ∧ Game.round (play_rounds g lb rs).1
         = Game.round g + Z.of_nat (length rs)).
Proof.
  intros Ht Hu1 Hu2 Hp a b.
  destruct (processRound_dice g lb u1 u2 Ht) as [lb0 Hd].
  rewrite Hd in Hp. injection Hp as <- <- <-. fold a b.
  split; [split; by apply rollDice_range|].
  do 2 (split; [done|]).
  repeat split; intros;
    try (destruct (Z.gtb_spec a b); [|lia]);
    try (destruct (Z.gtb_spec a b); [lia|destruct (Z.ltb_spec a b); [|lia]]);
    try (destruct (Z.gtb_spec a b); [lia|destruct (Z.ltb_spec a b); [lia|]]);
    simpl; try done; try lia.
  all: destruct (play_rounds_dice rs g lb Ht) as (E1 & E2 & E3); lia.
Qed.

Lemma rps_resolution_grid_witness :
  let g := fresh_game "rps" (VStr "rock") (VStr "scissors") in
  getRPSResult (VStr "rock") (VStr "scissors") = p1_
  ∧ Side.score (Game.player1 (processRound g [] lo lo).1.1) = 15
  ∧ Side.score (Game.player2 (processRound g [] lo lo).1.1) = 0.
Proof.
  intros g.
  destruct (rps_resolution_grid rock scissors g
              (processRound g [] lo lo).1.1 [] (processRound g [] lo lo).1.2
              lo lo (processRound g [] lo lo).2
              eq_refl eq_refl eq_refl eq_refl)
    as (H1 & _ & _ & _ & _ & _ & H2 & H3 & _).
  exact (conj H1 (conj H2 H3)).
Defined.

Lemma dice_resolution_witness :
  let g := fresh_game "dice" (VStr "roll") (VStr "roll") in
  let rs := [mkRoundInput (VStr "roll") (VStr "roll") hi lo;
             mkRoundInput (VStr "roll") (VStr "roll") lo lo;
             mkRoundInput (VStr "roll") (VStr "roll") hi lo] in
  (1 ≤ rollDice hi ≤ 6 ∧ 1 ≤ rollDice lo ≤ 6)
  ∧ Side.score (Game.player1 (play_rounds g [] rs).1) = 10 * 2
  ∧ Side.score (Game.player2 (play_rounds g [] rs).1) = 10 * 0.
Proof.
  intros g rs.
  assert (unit_interval hi) as Hhi by (split; discriminate || reflexivity).
  assert (unit_interval lo) as Hlo by (split; discriminate || reflexivity).
  destruct (dice_resolution g (processRound g [] hi lo).1.1 []
              (processRound g [] hi lo).1.2 hi lo (processRound g [] hi lo).2
              rs eq_refl Hhi Hlo eq_refl)
    as (H1 & _ & _ & _ & _ & _ & H2).
  destruct (H2 eq_refl eq_refl) as (H3 & H4 & _).
  exact (conj H1 (conj H3 H4)).
Defined.

(** ** Disconnecting and leaving *)

Lemma on_disconnect_leaderboard (s : State) (sid : string) :
  leaderboard (on_disconnect s sid).1 = leaderboard s.
Proof.
  unfold on_disconnect. destruct (players s !! sid) as [player|]; [|done].
  destruct (truthy_ref (Player.currentGame player)); [|done].
  simpl. destruct (games s !! _) as [game|]; [|done].
  by case_bool_decide.
Qed.

(** C1.  ["a"] and ["b"] are paired in an active dice game and ["b"]
    disconnects: ["a"] is sent [opponent_left] and the game becomes
    [ended], but the leaderboard is left as it was, ["a"] with 0 wins and
    ["b"] with 0 losses.  [leave_game] sent by ["b"] in the same state does
    award the win to ["a"] and the loss to ["b"]. *)
Theorem disconnect_awards_no_forfeit :
  let s := paired "dice" in
  let s' := (on_disconnect s "b").1 in
  Game.status <$> game_at s "g1" = Some playing
  ∧ Side.isAI ∘ Game.player2 <$> game_at s "g1" = Some false
  ∧ received "a" (on_disconnect s "b").2 = [ev_opponent_left "Opponent disconnected"]
  ∧ Game.status <$> game_at s' "g1" = Some ended
  ∧ leaderboard s' = leaderboard s
  ∧ Entry.wins <$> entry_of s' "a" = Some 0
  ∧ Entry.losses <$> entry_of s' "b" = Some 0
  ∧ Entry.wins <$> entry_of (on_leave_game s "b").1 "a" = Some 1
  ∧ Entry.losses <$> entry_of (on_leave_game s "b").1 "b" = Some 1.
Proof. vm_compute. repeat split; reflexivity. Qed.

(** Once a game is [ended], [move] on it is refused. *)
Lemma on_move_ended (s : State) (sid gameId : string) (mv : jsval) (r : Rnd)
    (game : Game.t) :
  games s !! gameId = Some game → Game.status game = ended →
  on_move s sid gameId mv r = invalid_state s sid.
Proof.
  intros Hg Hs. unfold on_move. rewrite Hg.
  destruct (players s !! sid); [|done].
  rewrite bool_decide_eq_false_2; [done | congruence].
Qed.

(** C6.  ["a"] leaves the game it plays with ["b"]: the game is [ended],
    ["b"] has one win and ["a"] one loss.  A [move] of ["b"] on the ended
    game is refused and a disconnect of ["b"] changes no leaderboard entry,
    but [leave_game] sent by ["b"] on the ended game issues a second
    forfeit: ["a"] gets a win and ["b"] a loss for the same game. *)
Theorem leave_game_forfeits_twice :
  let s1 := (on_leave_game (paired "dice") "a").1 in
  let s2 := (on_leave_game s1 "b").1 in
  Game.status <$> game_at s1 "g1" = Some ended
  ∧ entry_of s1 "a" = Some (Entry.mk "a" "Ann" 0 1 0)
  ∧ entry_of s1 "b" = Some (Entry.mk "b" "Bob" 1 0 10)
  ∧ on_move s1 "b" "g1" (VStr "roll") no_rnd = invalid_state s1 "b"
  ∧ leaderboard (on_disconnect s1 "b").1 = leaderboard s1
  ∧ received "a" (on_leave_game s1 "b").2 = [ev_opponent_left "Opponent left the game"]
  ∧ entry_of s2 "a" = Some (Entry.mk "a" "Ann" 1 1 10)
  ∧ entry_of s2 "b" = Some (Entry.mk "b" "Bob" 1 1 10).
Proof.
  intros s1 s2.
  split; [reflexivity|]. do 2 (split; [by vm_compute|]).
  split; [by apply on_move_ended with (game := default (fresh_game "" VNull VNull) (game_at s1 "g1"))|].
  split; [apply on_disconnect_leaderboard|].
  by vm_compute.
Qed.

(** ** Joining a queue *)

Lemma queues_get_unnamed (gameType : jsval) (q : Queues.t) :
  ¬ names_queue gameType →
  Queues.get gameType q = Absent ∨ Queues.get gameType q = Inherited.
Proof.
  unfold names_queue, Queues.get. intros Hn.
  destruct (key_of gameType) as [k|]; [|by left].
  destruct (String.eqb_spec k "dice") as [->|_]; [destruct Hn; by left|].
  destruct (String.eqb_spec k "rps") as [->|_]; [destruct Hn; by right|].
  destruct (inherited k); auto.
Qed.

Lemma join_queue_unrecognized (s : State) (sid : string) (gameType : jsval)
    (gid : string) :
  ¬ names_queue gameType →
  on_join_queue s sid gameType gid =
    match players s !! sid with Some _ => Threw s [] | None => Done s [] end.
Proof.
  intros Hn. unfold on_join_queue.
  destruct (players s !! sid); [|done].
  by destruct (queues_get_unnamed gameType (queues s) Hn) as [-> | ->].
Qed.

(** C4.  The registered connection ["c"] asks for the queue of the game
    type ["chess"]: the handler stops at an uncaught [TypeError]; the
    queues and the rest of the state are as before and nothing is emitted,
    so the caller is sent no error notice. *)
Theorem join_queue_unknown_type_throws :
  let s := paired "dice" in
  on_join_queue s "c" (VStr "chess") "g2" = Threw s []
  ∧ threw (on_join_queue s "c" (VStr "chess") "g2") = true
  ∧ queues (state_of (on_join_queue s "c" (VStr "chess") "g2")) = queues s
  ∧ received "c" (emits_of (on_join_queue s "c" (VStr "chess") "g2")) = [].
Proof.
  intros s.
  assert (on_join_queue s "c" (VStr "chess") "g2" = Threw s []) as ->.
  { rewrite join_queue_unrecognized; [done|]. by intros [|]. }
  done.
Qed.

(** ** Round results *)

(** C5.  In an rps game ["a"] (side 1) has played rock and ["b"] (side 2)
    sends the round's last move, paper, and wins.  The result sent to ["b"]
    names rock as its own move, paper as the opponent's and [lose] as its
    result; the one sent to ["a"] names paper as its own move and rock as
    the opponent's.  The scores in both are from the recipient's side.
    When the same two moves arrive in the other order, side 1 sending
    last, each recipient is sent its own move and its own result. *)
Theorem round_result_wrong_perspective :
  let s1 := (on_move (paired "rps") "a" "g1" (VStr "rock") no_rnd).1 in
  let out := (on_move s1 "b" "g1" (VStr "paper") no_rnd).2 in
  let s1' := (on_move (paired "rps") "b" "g1" (VStr "paper") no_rnd).1 in
  let out' := (on_move s1' "a" "g1" (VStr "rock") no_rnd).2 in
  Side.move ∘ Game.player1 <$> game_at s1 "g1" = Some (VStr "rock")
  ∧ received "b" out =
      [ev_round_result 1 (VStr "rock") (VStr "paper") (Some lose) 15 0]
  ∧ received "a" out =
      [ev_round_result 1 (VStr "paper") (VStr "rock") (Some lose) 0 15]
  ∧ received "b" out' =
      [ev_round_result 1 (VStr "paper") (VStr "rock") (Some win) 15 0]
  ∧ received "a" out' =
      [ev_round_result 1 (VStr "rock") (VStr "paper") (Some lose) 0 15].
Proof. vm_compute. repeat split; reflexivity. Qed.

(** ** The move handler *)

Section on_move.
Context (s : State) (sid gameId : string) (mv : jsval) (r : Rnd).
Context (game : Game.t) (player : Player.t).
Hypothesis Hgame : games s !! gameId = Some game.
Hypothesis Hplayer : players s !! sid = Some player.
Hypothesis Hstatus : Game.status game = playing.

Let game2 := recorded sid mv (u_ai r) game.

Lemma is_p1_recorded : is_p1 sid game2 = is_p1 sid game.
Proof.
  unfold game2, recorded, ai_reply, is_p1, set_opponent, set_currentPlayer.
  by repeat case_match.
Qed.

(** Without two truthy pending moves the handler stores the recorded
    move and resolves nothing. *)
Lemma on_move_pending :
  both_moved sid game2 = false →
  on_move s sid gameId mv r =
    (set_games (<[gameId := game2]> (games s)) s,
     if negb (Side.isAI (opponent (is_p1 sid game) game2))
     then [(sid, ev_waiting "Waiting for opponent...");
           (Side.odId (opponent (is_p1 sid game) game2),
            ev_opponent_moved "Opponent has made their move!")]
     else []).
Proof.
  unfold both_moved. rewrite is_p1_recorded. intros Hb.
  unfold on_move. rewrite Hgame, Hplayer, bool_decide_eq_true_2 by done.
  fold (is_p1 sid game). fold (recorded sid mv (u_ai r) game). fold game2.
  rewrite Hb. by destruct (negb _).
Qed.

(** With two truthy pending moves the round is processed. *)
Lemma on_move_resolved :
  both_moved sid game2 = true →
  ∃ out,
    on_move s sid gameId mv r =
      (set_leaderboard (processRound game2 (leaderboard s) (u_p1 r) (u_p2 r)).1.2
         (set_games
            (<[gameId :=
                 reset_moves (processRound game2 (leaderboard s) (u_p1 r) (u_p2 r)).1.1]>
               (games s)) s),
       out)
    ∧ ∃ e, is_round_result e = true ∧ head out = Some (sid, e)
    ∧ Forall (λ e : Emit, is_error e.2 = false) out.
Proof.
  unfold both_moved. rewrite is_p1_recorded. intros Hb.
  unfold on_move. rewrite Hgame, Hplayer, bool_decide_eq_true_2 by done.
  fold (is_p1 sid game). fold (recorded sid mv (u_ai r) game). fold game2.
  rewrite Hb.
  destruct (processRound game2 (leaderboard s) (u_p1 r) (u_p2 r))
    as [[game3 lb] result]. simpl.
  eexists. split; [reflexivity|].
  destruct (negb (Side.isAI _)); eexists; (split; [|split; [reflexivity|]]);
    try reflexivity; repeat constructor.
Qed.
End on_move.

Lemma processRound_round (g : Game.t) (lb : Leaderboard) (u1 u2 : Q) :
  Game.round (processRound g lb u1 u2).1.1 = Game.round g + 1.
Proof. unfold processRound. by repeat case_match; simplify_eq. Qed.

Lemma recorded_move (sid : string) (mv : jsval) (u : Q) (g : Game.t) :
  Side.move (currentPlayer (is_p1 sid g) (recorded sid mv u g)) = mv.
Proof.
  unfold recorded, ai_reply, set_opponent, set_currentPlayer, currentPlayer.
  by repeat case_match.
Qed.

Lemma recorded_frame (sid : string) (mv : jsval) (u : Q) (g : Game.t) :
  let g' := recorded sid mv u g in
  Game.round g' = Game.round g
  ∧ Game.status g' = Game.status g
  ∧ Game.type g' = Game.type g
  ∧ Side.score (Game.player1 g') = Side.score (Game.player1 g)
  ∧ Side.score (Game.player2 g') = Side.score (Game.player2 g)
  ∧ Side.odId (Game.player1 g') = Side.odId (Game.player1 g)
  ∧ Side.odId (Game.player2 g') = Side.odId (Game.player2 g)
  ∧ Side.isAI (Game.player1 g') = Side.isAI (Game.player1 g)
  ∧ Side.isAI (Game.player2 g') = Side.isAI (Game.player2 g).
Proof.
  unfold recorded, ai_reply, set_opponent, set_currentPlayer, currentPlayer, opponent.
  by repeat case_match.
Qed.

(** Against a human opponent recording is all that happens to the game. *)
Lemma recorded_human (sid : string) (mv : jsval) (u : Q) (g : Game.t) :
  Side.isAI (opponent (is_p1 sid g) g) = false →
  recorded sid mv u g =
    set_currentPlayer (is_p1 sid g)
      (Side.set_move mv (currentPlayer (is_p1 sid g) g)) g.
Proof.
  intros H. unfold recorded, ai_reply.
  destruct (is_p1 sid g); simpl in *; by rewrite H.
Qed.

(** A falsy move never completes a round. *)
Lemma falsy_not_both_moved (sid : string) (mv : jsval) (u : Q) (g : Game.t) :
  truthy mv = false → both_moved sid (recorded sid mv u g) = false.
Proof.
  intros Hf. unfold both_moved.
  assert (is_p1 sid (recorded sid mv u g) = is_p1 sid g) as ->.
  { unfold is_p1. by destruct (recorded_frame sid mv u g) as (_&_&_&_&_&->&_). }
  by rewrite recorded_move, Hf.
Qed.

Lemma stall_step (s : State) (opp gameId : string) (m : jsval) (r : Rnd)
    (f : bool) (mv : jsval) (g0 g : Game.t) :
  games s !! gameId = Some g →
  stalled f mv g0 g → truthy mv = false → is_p1 opp g0 = negb f →
  ∃ g1, games (on_move s opp gameId m r).1 !! gameId = Some g1
        ∧ stalled f mv g0 g1
        ∧ no_round_result (on_move s opp gameId m r).2.
Proof.
  intros Hg Hst Hf Hopp.
  assert (no_round_result (invalid_state s opp).2) as Herr by (by repeat constructor).
  destruct (players s !! opp) as [player|] eqn:Hp; last first.
  { exists g. unfold on_move. by rewrite Hg, Hp. }
  destruct (decide (Game.status g = playing)) as [Hs|Hs]; last first.
  { exists g. unfold on_move. by rewrite Hg, Hp, bool_decide_eq_false_2. }
  destruct Hst as (Hid & Ha1 & Ha2 & Hmv & Hr & Hs1 & Hs2).
  assert (is_p1 opp g = negb f) as Hopp' by (unfold is_p1 in *; by rewrite Hid).
  assert (Side.isAI (opponent (is_p1 opp g) g) = false) as Hhuman.
  { unfold opponent. by destruct (is_p1 opp g). }
  assert (recorded opp m (u_ai r) g =
          set_currentPlayer (negb f) (Side.set_move m (currentPlayer (negb f) g)) g)
    as Hrec by (by rewrite recorded_human, Hopp').
  assert (both_moved opp (recorded opp m (u_ai r) g) = false) as Hb.
  { unfold both_moved. rewrite is_p1_recorded, Hopp', Hrec.
    replace (Side.move (opponent (negb f) _)) with mv; [by rewrite Hf, andb_false_r|].
    rewrite <- Hmv. by destruct f. }
  rewrite (on_move_pending s opp gameId m r g player Hg Hp Hs Hb). simpl.
  exists (recorded opp m (u_ai r) g). rewrite lookup_insert_eq. split; [done|].
  split.
  - rewrite Hrec. unfold stalled. rewrite <- Hmv, <- Hid, <- Hr, <- Hs1, <- Hs2.
    by destruct f.
  - unfold no_round_result. destruct (negb (Side.isAI _)); repeat constructor.
Qed.

Lemma stall_forever (ms : list (jsval * Rnd)) :
  ∀ (s : State) (opp gameId : string) (f : bool) (mv : jsval) (g0 g : Game.t),
    games s !! gameId = Some g →
    stalled f mv g0 g → truthy mv = false → is_p1 opp g0 = negb f →
    ∃ g1, games (submit_all s opp gameId ms).1 !! gameId = Some g1
          ∧ stalled f mv g0 g1
          ∧ no_round_result (submit_all s opp gameId ms).2.
Proof.
  induction ms as [|[m r] ms IH]; intros s opp gameId f mv g0 g Hg Hst Hf Hopp.
  - exists g. simpl. split; [done|]. split; [done|]. constructor.
  - simpl.
    destruct (stall_step s opp gameId m r f mv g0 g Hg Hst Hf Hopp)
      as (g1 & Hg1 & Hst1 & Hn1).
    destruct (on_move s opp gameId m r) as [s1 out1]. simpl in *.
    destruct (IH s1 opp gameId f mv g0 g1 Hg1 Hst1 Hf Hopp) as (g2 & Hg2 & Hst2 & Hn2).
    destruct (submit_all s1 opp gameId ms) as [s2 out2]. simpl in *.
    exists g2. split; [done|]. split; [done|]. by apply Forall_app.
Qed.

(** C10.  In the move handler the round is resolved (the round counter
    grows, a [round_result] is emitted) exactly when both pending moves are
    truthy once the caller's move is recorded.  A falsy move is recorded on
    the caller's side and resolves nothing: round counter, scores and
    leaderboard stay, no [round_result] is emitted; and between two humans,
    however many moves the opponent then sends, the round stays unresolved
    as long as that falsy value is pending. *)
Theorem falsy_move_stalls_round (s : State) (sid gameId : string) (mv : jsval)
    (r : Rnd) (game : Game.t) (player : Player.t) :
  games s !! gameId = Some game →
  players s !! sid = Some player →
  Game.status game = playing →
  let game2 := recorded sid mv (u_ai r) game in
  let s' := (on_move s sid gameId mv r).1 in
  let out := (on_move s sid gameId mv r).2 in
  (Game.round <$> game_at s' gameId = Some (Game.round game + 1)
   ↔ both_moved sid game2 = true)
  ∧ (Exists (λ e : Emit, is_round_result e.2 = true) out
     ↔ both_moved sid game2 = true)
  ∧ (truthy mv = false →
       game_at s' gameId = Some game2
       ∧ Side.move (currentPlayer (is_p1 sid game) game2) = mv
       ∧ Game.round game2 = Game.round game
       ∧ Side.score (Game.player1 game2) = Side.score (Game.player1 game)
       ∧ Side.score (Game.player2 game2) = Side.score (Game.player2 game)
       ∧ leaderboard s' = leaderboard s
       ∧ no_round_result out
       ∧ (Side.isAI (Game.player1 game) = false →
          Side.isAI (Game.player2 game) = false →
          ∀ (opp : string) (ms : list (jsval * Rnd)),
            is_p1 opp game = negb (is_p1 sid game) →
            ∃ g, game_at (submit_all s' opp gameId ms).1 gameId = Some g
                 ∧ stalled (is_p1 sid game) mv game g
                 ∧ no_round_result (submit_all s' opp gameId ms).2)).
Proof.
  intros Hg Hp Hs game2 s' out.
  destruct (recorded_frame sid mv (u_ai r) game)
    as (Hround & _ & _ & Hs1 & Hs2 & Hid & _ & Ha1 & Ha2).
  fold game2 in Hround, Hs1, Hs2, Hid, Ha1, Ha2.
  assert (both_moved sid game2 = false →
          game_at s' gameId = Some game2 ∧ leaderboard s' = leaderboard s
          ∧ no_round_result out) as Hpending.
  { intros Hb. unfold s', out, game_at.
    rewrite (on_move_pending s sid gameId mv r game player Hg Hp Hs Hb). simpl.
    rewrite lookup_insert_eq. repeat split.
    unfold no_round_result. destruct (negb (Side.isAI _)); repeat constructor. }
  assert (both_moved sid game2 = true →
          Game.round <$> game_at s' gameId = Some (Game.round game + 1)
          ∧ Exists (λ e : Emit, is_round_result e.2 = true) out) as Hresolved.
  { intros Hb. unfold s', out, game_at.
    destruct (on_move_resolved s sid gameId mv r game player Hg Hp Hs Hb)
      as (o & -> & e & He & Hhd & _). simpl.
    rewrite lookup_insert_eq. simpl. fold game2.
    rewrite processRound_round, Hround. split; [done|].
    destruct o as [|e0 o]; simplify_eq/=. by constructor. }
  split; [|split].
  - split; [|apply Hresolved].
    destruct (both_moved sid game2) eqn:Hb; [done|].
    destruct (Hpending eq_refl) as (-> & _). simpl. intros [=]. lia.
  - split; [|apply Hresolved].
    destruct (both_moved sid game2) eqn:Hb; [done|].
    destruct (Hpending eq_refl) as (_ & _ & Hn). intros Hex.
    apply Exists_exists in Hex as (e & Hin & He).
    unfold no_round_result in Hn. rewrite Forall_forall in Hn.
    specialize (Hn e Hin). congruence.
  - intros Hf.
    destruct (Hpending (falsy_not_both_moved sid mv (u_ai r) game Hf))
      as (Hg2 & Hlb & Hn).
    do 7 (split; [done || apply recorded_move|]).
    intros H1 H2 opp ms Hopp.
    apply stall_forever with (g := game2); try done.
    unfold stalled. rewrite Hid, Ha1, Ha2, Hround, Hs1, Hs2.
    repeat split; try done. apply recorded_move.
Qed.

Lemma falsy_move_stalls_round_witness :
  let s := paired "rps" in
  let s' := (on_move s "b" "g1" (VStr "") no_rnd).1 in
  let ms := [(VStr "rock", no_rnd); (VStr "paper", no_rnd)] in
  Side.move ∘ Game.player2 <$> game_at s' "g1" = Some (VStr "")
  ∧ no_round_result (on_move s "b" "g1" (VStr "") no_rnd).2
  ∧ ∃ g, game_at (submit_all s' "a" "g1" ms).1 "g1" = Some g
         ∧ Game.round g = 1
         ∧ no_round_result (submit_all s' "a" "g1" ms).2.
Proof.
  intros s s' ms.
  destruct (falsy_move_stalls_round s "b" "g1" (VStr "") no_rnd
              (fresh_game "rps" VNull VNull) (Player.mk "b" "Bob" (Some "g1"))
              eq_refl eq_refl eq_refl)
    as (_ & _ & H).
  destruct (H eq_refl) as (H1 & _ & _ & _ & _ & _ & H2 & H3).
  destruct (H3 eq_refl eq_refl "a" ms eq_refl) as (g & Hg & Hst & Hn).
  split; [unfold s'; by rewrite H1|]. split; [exact H2|].
  exists g. split; [exact Hg|]. split; [|exact Hn].
  by destruct Hst as (_ & _ & _ & _ & -> & _).
Defined.

(** ** Moves from outside the game *)




(** ** Moves outside the three choices *)





(** With an array on side 1 the table is read under its string:
    [['rock']] on side 1 against ['scissors'] on side 2 gives side 1 the
    round and 15 points, while two arrays [['rock']] do not tie, side 2
    winning. *)
Lemma array_move_wins_as_rock :
  let g := fresh_game "rps" (VObj "rock") (VStr "scissors") in
  canonical (VObj "rock") = false
  ∧ getRPSResult (VObj "rock") (VStr "scissors") = p1_
  ∧ getRPSResult (VObj "rock") (VObj "rock") = p2_
  ∧ Side.score (Game.player1 (processRound g [] lo lo).1.1) = 15
  ∧ Side.score (Game.player2 (processRound g [] lo lo).1.1) = 0.
Proof. vm_compute. repeat split; reflexivity. Qed.

(** ** Registration *)

Lemma lb_has_app_entry (sid name : string) (lb : Leaderboard) :
  lb_has sid (lb ++ [Entry.mk sid name 0 0 0]) = true.
Proof.
  unfold lb_has, lb_get. induction lb as [|e lb IH]; simpl.
  - by rewrite String.eqb_refl.
  - by destruct (String.eqb (Entry.odId e) sid).
Qed.

Lemma lb_has_registered (s : State) (sid : string) (name : option string) :
  lb_has sid (leaderboard (on_register s sid name).1) = true.
Proof.
  unfold on_register. simpl.
  destruct (lb_has sid (leaderboard s)) eqn:Hh; simpl; [done|].
  apply lb_has_app_entry.
Qed.

Lemma on_register_known (s : State) (sid : string) (name : option string) :
  lb_has sid (leaderboard s) = true →
  leaderboard (on_register s sid name).1 = leaderboard s.
Proof. intros Hh. unfold on_register. simpl. by rewrite Hh. Qed.

(** Against C7 as first stated: ["a"] registers as Ann and then again as
    Zed; its player record now
    carries the name Zed, while its leaderboard entry still says Ann.  A
    registration of ["a"] while it is in the game ["g1"] clears its
    reference to the game. *)
Lemma register_again_replaces_record :
  let s1 := (on_register initial "a" (Some "Ann")).1 in
  let s2 := (on_register s1 "a" (Some "Zed")).1 in
  players s1 !! "a" = Some (Player.mk "a" "Ann" None)
  ∧ players s2 !! "a" = Some (Player.mk "a" "Zed" None)
  ∧ entry_of s2 "a" = Some (Entry.mk "a" "Ann" 0 0 0)
  ∧ received "a" (on_register s1 "a" (Some "Zed")).2
    = [ev_registered "a" "Zed" [Entry.mk "a" "Ann" 0 0 0]]
  ∧ players (paired "dice") !! "a" = Some (Player.mk "a" "Ann" (Some "g1"))
  ∧ players (on_register (paired "dice") "a" (Some "Ann")).1 !! "a"
    = Some (Player.mk "a" "Ann" None)
  ∧ ¬ (players s2 !! "a" = players s1 !! "a").
Proof.
  vm_compute. repeat split; try reflexivity. intros [=].
Qed.

Lemma lb_get_app_new (sid : string) (lb : Leaderboard) (e : Entry.t) :
  lb_get sid lb = None → Entry.odId e = sid → lb_get sid (lb ++ [e]) = Some e.
Proof.
  unfold lb_get. intros Hn He. induction lb as [|x lb IH]; simpl in *.
  - by rewrite He, String.eqb_refl.
  - destruct (String.eqb (Entry.odId x) sid); [done | by apply IH].
Qed.

(** C7 (amended).  A [register] of a connection id that is already known
    leaves its leaderboard entry, with the name and the wins, losses and
    score it has, and the whole leaderboard unchanged: the newly requested
    name is ignored there.  The player record is replaced by a new one that
    carries the newly requested name, or the generated default, and no
    current game, whatever game the old record referred to; the records of
    the other connections, the games and the queues are untouched, and the
    caller is sent one [registered] notice with the new name.  An entry made
    by the first of two registrations carries the first name.  Registering
    a second time under the same name, from a state in which the first
    registration has just been made, gives the same state and the same
    [registered] notice as the first. *)
Theorem register_twice (s : State) (sid : string) (n1 n2 : option string) :
  let generated := "Player_" +:+ String.substring 0 4 sid in
  let requested (n : option string) :=
    match n with
    | Some x => if String.eqb x "" then generated else x
    | None => generated
    end in
  let s1 := (on_register s sid n1).1 in
  let s2 := (on_register s1 sid n2).1 in
  leaderboard s2 = leaderboard s1
  ∧ entry_of s2 sid = entry_of s1 sid
  ∧ players s2 = players (on_register s sid n2).1
  ∧ games s2 = games s ∧ queues s2 = queues s
  ∧ on_register s1 sid n1 = on_register s sid n1
  ∧ players s2 = <[sid := Player.mk sid (requested n2) None]> (players s)
  ∧ players (on_register s sid n2).1 =
      <[sid := Player.mk sid (requested n2) None]> (players s)
  ∧ games (on_register s sid n2).1 = games s
  ∧ queues (on_register s sid n2).1 = queues s
  ∧ (on_register s sid n2).2 =
      [(sid, ev_registered sid (requested n2)
               (getTopPlayers 10 (leaderboard (on_register s sid n2).1)))]
  ∧ (on_register s1 sid n2).2 =
      [(sid, ev_registered sid (requested n2)
               (getTopPlayers 10 (leaderboard s1)))]
  ∧ (∀ e, entry_of s sid = Some e →
       leaderboard (on_register s sid n2).1 = leaderboard s
       ∧ entry_of (on_register s sid n2).1 sid = Some e
       ∧ leaderboard s2 = leaderboard s
       ∧ entry_of s2 sid = Some e)
  ∧ (entry_of s sid = None →
       leaderboard s2 = leaderboard s ++ [Entry.mk sid (requested n1) 0 0 0]
       ∧ entry_of s2 sid = Some (Entry.mk sid (requested n1) 0 0 0)).
Proof.
  intros generated requested s1 s2.
  assert (∀ n, leaderboard (on_register s1 sid n).1 = leaderboard s1) as Hlb.
  { intros n. apply on_register_known, lb_has_registered. }
  assert (∀ n, players (on_register s1 sid n).1
               = players (on_register s sid n).1) as Hps.
  { intros n. unfold s1, on_register. simpl. apply insert_insert_eq. }
  assert (∀ e, entry_of s sid = Some e →
               ∀ n, leaderboard (on_register s sid n).1 = leaderboard s)
    as Hknown.
  { intros e He n. apply on_register_known. unfold lb_has.
    unfold entry_of in He. by rewrite He. }
  split; [apply Hlb|]. split; [unfold entry_of, s2; by rewrite Hlb|].
  split; [apply Hps|]. do 2 (split; [done|]).
  split.
  { specialize (Hlb n1). specialize (Hps n1).
    unfold on_register in *. simpl in *.
    rewrite Hlb. f_equal. f_equal. apply Hps. }
  split; [unfold s2; by rewrite Hps|]. do 4 (split; [done|]).
  split.
  { rewrite <- (Hlb n2) at 1. reflexivity. }
  split.
  - intros e He. unfold s2, entry_of.
    rewrite Hlb. unfold s1. rewrite !(Hknown e He). done.
  - intros Hn. unfold s2, entry_of. rewrite Hlb.
    assert (leaderboard s1
            = leaderboard s ++ [Entry.mk sid (requested n1) 0 0 0]) as ->.
    { unfold s1, on_register, lb_has. simpl.
      unfold entry_of in Hn. by rewrite Hn. }
    split; [done|]. by apply lb_get_app_new.
Qed.

(** A re-registration from inside a game, by a connection whose entry has
    a win on it: the entry keeps its name and its figures, the record
    loses its game. *)
Lemma register_keeps_stats_drops_game :
  let s0 := (on_move rock_pending "b" "g1" (VStr "paper") no_rnd).1 in
  let s1 := (on_register s0 "b" (Some "Zed")).1 in
  players s0 !! "b" = Some (Player.mk "b" "Bob" (Some "g1"))
  ∧ entry_of s0 "b" = Some (Entry.mk "b" "Bob" 1 0 10)
  ∧ players s1 !! "b" = Some (Player.mk "b" "Zed" None)
  ∧ entry_of s1 "b" = Some (Entry.mk "b" "Bob" 1 0 10)
  ∧ games s1 = games s0.
Proof. vm_compute. repeat split; reflexivity. Qed.


(** * Further properties of the server *)

(** ** The helper functions *)


Lemma insert_by_score_perm (x : Entry.t) (l : list Entry.t) :
  insert_by_score x l ≡ₚ x :: l.
Proof.
  induction l as [|y l IH]; simpl; [done|].
  destruct (Entry.score x <? Entry.score y); [|done].
  rewrite IH. apply Permutation_swap.
Qed.

Lemma sort_by_score_perm (l : list Entry.t) : sort_by_score l ≡ₚ l.
Proof.
  induction l as [|x l IH]; simpl; [done|].
  by rewrite insert_by_score_perm, IH.
Qed.

Lemma insert_by_score_sorted (x : Entry.t) (l : list Entry.t) :
  StronglySorted by_score_desc l →
  StronglySorted by_score_desc (insert_by_score x l).
Proof.
  induction 1 as [|y l Hl IH Hy]; simpl; [by repeat constructor|].
  destruct (Z.ltb_spec (Entry.score x) (Entry.score y)) as [Hlt|Hge].
  - constructor; [done|].
    rewrite insert_by_score_perm. constructor; [|done].
    unfold by_score_desc. lia.
  - constructor; [by constructor|].
    constructor; [done|].
    eapply Forall_impl; [exact Hy|]. unfold by_score_desc. intros; simpl in *; lia.
Qed.

Lemma sort_by_score_sorted (l : list Entry.t) :
  StronglySorted by_score_desc (sort_by_score l).
Proof.
  induction l as [|x l IH]; simpl; [constructor|].
  by apply insert_by_score_sorted.
Qed.

(** X2.  [getTopPlayers(limit)] lists entries of the leaderboard in
    descending order of score; it has [limit] entries, or all of them when
    there are fewer, and then it is a rearrangement of the leaderboard. *)
Theorem getTopPlayers_sorted (limit : nat) (lb : Leaderboard) :
  StronglySorted by_score_desc (getTopPlayers limit lb)
  ∧ length (getTopPlayers limit lb) = (limit `min` length lb)%nat
  ∧ (∀ e, e ∈ getTopPlayers limit lb → e ∈ lb)
  ∧ ((length lb ≤ limit)%nat → getTopPlayers limit lb ≡ₚ lb).
Proof.
  unfold getTopPlayers. repeat split.
  - pose proof (sort_by_score_sorted lb) as Hs.
    rewrite <- (take_drop limit (sort_by_score lb)) in Hs.
    by apply StronglySorted_app_1_l in Hs.
  - by rewrite length_take, sort_by_score_perm.
  - intros e He. apply subseteq_take in He. by rewrite sort_by_score_perm in He.
  - intros Hle. rewrite take_ge; [apply sort_by_score_perm|].
    by rewrite sort_by_score_perm.
Qed.

(** X3.  The sort of [getTopPlayers] is stable: a leaderboard already in
    descending order of score, in particular one whose scores are all
    equal, is listed in its insertion order. *)
Theorem sort_by_score_stable (lb : Leaderboard) :
  StronglySorted by_score_desc lb → sort_by_score lb = lb.
Proof.
  induction 1 as [|x l Hl IH Hx]; simpl; [done|].
  rewrite IH. destruct l as [|y l]; simpl; [done|].
  apply Forall_cons in Hx as [Hxy _]. unfold by_score_desc in Hxy.
  by destruct (Z.ltb_spec (Entry.score x) (Entry.score y)); [lia|].
Qed.

Lemma sort_by_score_stable_witness :
  sort_by_score [Entry.mk "a" "Ann" 0 0 0; Entry.mk "b" "Bob" 0 0 0]
  = [Entry.mk "a" "Ann" 0 0 0; Entry.mk "b" "Bob" 0 0 0].
Proof.
  apply (sort_by_score_stable
           [Entry.mk "a" "Ann" 0 0 0; Entry.mk "b" "Bob" 0 0 0]).
  constructor; [repeat constructor|].
  constructor; [by unfold by_score_desc | constructor].
Defined.

(** ** The leaderboard *)

Lemma lb_get_update_eq (k : string) (won : bool) (lb : Leaderboard) :
  lb_get k (updateLeaderboard k won lb)
  = (if won then entry_won else entry_lost) <$> lb_get k lb.
Proof.
  unfold lb_get. induction lb as [|e lb IH]; simpl; [done|].
  destruct (String.eqb (Entry.odId e) k) eqn:He; simpl.
  - by destruct won; simpl; rewrite He.
  - by rewrite He.
Qed.

Lemma lb_get_update_ne (k k' : string) (won : bool) (lb : Leaderboard) :
  k ≠ k' → lb_get k' (updateLeaderboard k won lb) = lb_get k' lb.
Proof.
  intros Hne. unfold lb_get. induction lb as [|e lb IH]; simpl; [done|].
  destruct (String.eqb_spec (Entry.odId e) k) as [He|He]; simpl.
  - destruct (String.eqb_spec (Entry.odId e) k') as [He'|He']; [congruence|].
    destruct won; simpl; by rewrite (proj2 (String.eqb_neq _ _) He').
  - by rewrite IH.
Qed.

Lemma updateLeaderboard_missing (k : string) (won : bool) (lb : Leaderboard) :
  lb_get k lb = None → updateLeaderboard k won lb = lb.
Proof.
  unfold lb_get. induction lb as [|e lb IH]; simpl; [done|].
  destruct (String.eqb (Entry.odId e) k); [done|]. intros H. by rewrite IH.
Qed.

Lemma updateLeaderboard_keys (k : string) (won : bool) (lb : Leaderboard) :
  Entry.odId <$> updateLeaderboard k won lb = Entry.odId <$> lb.
Proof.
  induction lb as [|e lb IH]; simpl; [done|].
  destruct (String.eqb (Entry.odId e) k); simpl; [by destruct won|].
  f_equal. apply IH.
Qed.

(** X4.  [updateLeaderboard(odId, won)] changes the entry stored under
    [odId] and no other: a win adds 1 to its wins and 10 to its score, a
    loss adds 1 to its losses only.  When there is no entry under [odId]
    the leaderboard is left as it is. *)
Theorem updateLeaderboard_lookup (k k' : string) (won : bool) (lb : Leaderboard) :
  lb_get k' (updateLeaderboard k won lb)
  = (if bool_decide (k = k')
     then (λ e, Entry.mk (Entry.odId e) (Entry.name e)
                  (Entry.wins e + (if won then 1 else 0))
                  (Entry.losses e + (if won then 0 else 1))
                  (Entry.score e + (if won then 10 else 0))) <$> lb_get k' lb
     else lb_get k' lb)
  ∧ (lb_get k lb = None → updateLeaderboard k won lb = lb).
Proof.
  split; [|apply updateLeaderboard_missing].
  case_bool_decide as Hk.
  - subst k'. rewrite lb_get_update_eq.
    destruct (lb_get k lb) as [[]|]; [|done].
    destruct won; simpl; unfold entry_won, entry_lost; simpl;
      do 2 f_equal; lia.
  - by apply lb_get_update_ne.
Qed.

(** ** Round processing *)

Lemma processRound_frame (g : Game.t) (lb : Leaderboard) (u1 u2 : Q) :
  let g' := (processRound g lb u1 u2).1.1 in
  Game.id g' = Game.id g
  ∧ Game.type g' = Game.type g
  ∧ Game.status g' = Game.status g
  ∧ Side.odId (Game.player1 g') = Side.odId (Game.player1 g)
  ∧ Side.odId (Game.player2 g') = Side.odId (Game.player2 g)
  ∧ Side.isAI (Game.player1 g') = Side.isAI (Game.player1 g)
  ∧ Side.isAI (Game.player2 g') = Side.isAI (Game.player2 g)
  ∧ Side.score (Game.player1 g) ≤ Side.score (Game.player1 g')
  ∧ Side.score (Game.player2 g) ≤ Side.score (Game.player2 g').
Proof.
  unfold processRound.
  repeat case_match; simplify_eq; simpl; repeat split; lia.
Qed.

Lemma processRound_ai (g : Game.t) (lb : Leaderboard) (u1 u2 : Q) :
  Side.isAI (Game.player2 g) = true → (processRound g lb u1 u2).1.2 = lb.
Proof.
  intros Hai. unfold processRound.
  destruct (strict_eq (Game.type g) (VStr "dice"));
    [destruct (rollDice u1 >? rollDice u2);
       [|destruct (rollDice u1 <? rollDice u2)]
    |destruct (strict_eq (Game.type g) (VStr "rps"));
       [destruct (getRPSResult _ _)|]];
    simpl; by rewrite Hai.
Qed.

(** X5.  In a game between two humans with distinct ids and a recognized
    type, [processRound] records a round that is not a tie as one win, with
    10 points, on the leaderboard entry of the winner and one loss on that
    of the loser, and changes no other entry; a tie leaves the leaderboard
    as it is. *)
Theorem processRound_leaderboard (g : Game.t) (lb : Leaderboard) (u1 u2 : Q) :
  Side.isAI (Game.player2 g) = false →
  recognized (Game.type g) →
  Side.odId (Game.player1 g) ≠ Side.odId (Game.player2 g) →
  let lb' := (processRound g lb u1 u2).1.2 in
  let info := (processRound g lb u1 u2).2 in
  let a := Side.odId (Game.player1 g) in
  let b := Side.odId (Game.player2 g) in
  (p1Result info = Some tie ∧ p2Result info = Some tie ∧ lb' = lb)
  ∨ (p1Result info = Some win ∧ p2Result info = Some lose
     ∧ lb_get a lb' = entry_won <$> lb_get a lb
     ∧ lb_get b lb' = entry_lost <$> lb_get b lb
     ∧ ∀ k, k ≠ a → k ≠ b → lb_get k lb' = lb_get k lb)
  ∨ (p1Result info = Some lose ∧ p2Result info = Some win
     ∧ lb_get a lb' = entry_lost <$> lb_get a lb
     ∧ lb_get b lb' = entry_won <$> lb_get b lb
     ∧ ∀ k, k ≠ a → k ≠ b → lb_get k lb' = lb_get k lb).
Proof.
  intros Hai Hrec Hne lb' info a b.
  assert (∀ w1 w2,
    lb_get a (updateLeaderboard b w2 (updateLeaderboard a w1 lb))
      = (if w1 then entry_won else entry_lost) <$> lb_get a lb
    ∧ lb_get b (updateLeaderboard b w2 (updateLeaderboard a w1 lb))
      = (if w2 then entry_won else entry_lost) <$> lb_get b lb
    ∧ ∀ k, k ≠ a → k ≠ b →
        lb_get k (updateLeaderboard b w2 (updateLeaderboard a w1 lb))
        = lb_get k lb) as Hupd.
  { intros w1 w2. repeat split.
    - rewrite lb_get_update_ne by (by apply not_eq_sym). apply lb_get_update_eq.
    - rewrite lb_get_update_eq. by rewrite lb_get_update_ne.
    - intros k Ha Hb. rewrite !lb_get_update_ne; try done; by apply not_eq_sym. }
  subst lb' info. unfold processRound.
  destruct Hrec as [Ht | Ht]; rewrite Ht; simpl.
  - destruct (rollDice u1 >? rollDice u2); simpl; rewrite ?Hai; simpl;
      [right; left; repeat split; apply Hupd|].
    destruct (rollDice u1 <? rollDice u2); simpl; rewrite ?Hai; simpl;
      [right; right; repeat split; apply Hupd | by left].
  - destruct (getRPSResult _ _); simpl; rewrite ?Hai; simpl;
      [by left | right; left | right; right]; repeat split; apply Hupd.
Qed.

Lemma processRound_leaderboard_witness :
  let g := fresh_game "rps" (VStr "rock") (VStr "scissors") in
  let lb := [Entry.mk "a" "Ann" 0 0 0; Entry.mk "b" "Bob" 0 0 0] in
  lb_get "a" (processRound g lb lo lo).1.2 = Some (Entry.mk "a" "Ann" 1 0 10)
  ∧ lb_get "b" (processRound g lb lo lo).1.2 = Some (Entry.mk "b" "Bob" 0 1 0).
Proof.
  intros g lb.
  destruct (processRound_leaderboard g lb lo lo eq_refl
              (or_intror eq_refl) ltac:(discriminate))
    as [(H & _) | [(_ & _ & Ha & Hb & _) | (H & _)]];
    [discriminate H | exact (conj Ha Hb) | discriminate H].
Defined.

(** X6.  A dice round does not read the submitted moves: whatever the two
    pending values are, the results, the displayed rolls, the scores and
    the leaderboard come out the same. *)
Theorem dice_ignores_moves (g : Game.t) (lb : Leaderboard) (u1 u2 : Q)
    (m1 m2 : jsval) :
  Game.type g = VStr "dice" →
  let r := processRound g lb u1 u2 in
  let r' := processRound (with_moves m1 m2 g) lb u1 u2 in
  r'.2 = r.2
  ∧ r'.1.2 = r.1.2
  ∧ Side.score (Game.player1 r'.1.1) = Side.score (Game.player1 r.1.1)
  ∧ Side.score (Game.player2 r'.1.1) = Side.score (Game.player2 r.1.1)
  ∧ Game.round r'.1.1 = Game.round r.1.1.
Proof.
  intros Ht r r'. subst r r'. unfold processRound. rewrite Ht. simpl.
  rewrite Ht. simpl.
  destruct (rollDice u1 >? rollDice u2); simpl; [done|].
  by destruct (rollDice u1 <? rollDice u2).
Qed.

Lemma dice_ignores_moves_witness :
  (processRound (with_moves (VStr "x") (VNum 7) (fresh_game "dice" VNull VNull))
     [] hi lo).2
  = (processRound (fresh_game "dice" VNull VNull) [] hi lo).2.
Proof.
  exact (proj1 (dice_ignores_moves (fresh_game "dice" VNull VNull) [] hi lo
                  (VStr "x") (VNum 7) eq_refl)).
Defined.

(** ** More on the move handler *)


Lemma on_move_invalid (s : State) (sid gameId : string) (mv : jsval) (r : Rnd) :
  games s !! gameId = None
  ∨ players s !! sid = None
  ∨ Game.status <$> games s !! gameId = Some ended →
  on_move s sid gameId mv r = (s, [(sid, ev_error "Invalid game state")]).
Proof.
  unfold on_move. intros [Hg | [Hp | He]].
  - by rewrite Hg.
  - rewrite Hp. by destruct (games s !! gameId).
  - destruct (games s !! gameId) as [game|]; [|done].
    destruct (players s !! sid); [|done].
    rewrite bool_decide_eq_false_2; [done|]. simpl in He. congruence.
Qed.

(** X7.  A move naming a game that does not exist, sent by a connection
    that is not registered, or naming a game that has ended, is answered
    with the error ["Invalid game state"] and changes nothing. *)
Theorem on_move_rejected (s : State) (sid gameId : string) (mv : jsval) (r : Rnd) :
  games s !! gameId = None
  ∨ players s !! sid = None
  ∨ Game.status <$> games s !! gameId = Some ended →
  on_move s sid gameId mv r = (s, [(sid, ev_error "Invalid game state")]).
Proof. apply on_move_invalid. Qed.

Lemma on_move_rejected_witness :
  on_move (paired "dice") "a" "nope" (VStr "roll") no_rnd
  = (paired "dice", [("a", ev_error "Invalid game state")]).
Proof.
  apply (on_move_rejected (paired "dice") "a" "nope" (VStr "roll") no_rnd).
  left. reflexivity.
Defined.

(** X8.  A move on a game whose side 2 is the AI never changes the
    leaderboard, whoever sends it and whether or not a round is resolved. *)
Theorem ai_game_keeps_leaderboard (s : State) (sid gameId : string)
    (mv : jsval) (r : Rnd) (game : Game.t) :
  games s !! gameId = Some game →
  Side.isAI (Game.player2 game) = true →
  leaderboard (on_move s sid gameId mv r).1 = leaderboard s.
Proof.
  intros Hg Hai.
  destruct (players s !! sid) as [player|] eqn:Hp;
    [|by rewrite on_move_invalid by auto].
  destruct (decide (Game.status game = playing)) as [Hs|Hs];
    [|rewrite on_move_invalid; [done|]; right; right; rewrite Hg; simpl;
      by destruct (Game.status game)].
  destruct (both_moved sid (recorded sid mv (u_ai r) game)) eqn:Hb.
  - destruct (on_move_resolved s sid gameId mv r game player Hg Hp Hs Hb)
      as (o & -> & _). simpl. apply processRound_ai.
    by destruct (recorded_frame sid mv (u_ai r) game) as (_&_&_&_&_&_&_&_&->).
  - by rewrite (on_move_pending s sid gameId mv r game player Hg Hp Hs Hb).
Qed.

Lemma ai_game_keeps_leaderboard_witness :
  leaderboard (on_move (versus_ai "dice") "a" "g1" (VStr "roll") (mkRnd lo hi lo)).1
  = leaderboard (versus_ai "dice").
Proof.
  apply (ai_game_keeps_leaderboard (versus_ai "dice") "a" "g1" (VStr "roll")
           (mkRnd lo hi lo)
           (createGame "g1" (VStr "dice") "a" "Ann" "AI" "AI Opponent" true ∅).1);
    reflexivity.
Defined.



Lemma default_last_cons {A : Type} (m x : A) (l : list A) :
  default m (last (x :: l)) = default x (last l).
Proof. rewrite last_cons. by destruct (last l). Qed.

Lemma strict_eq_unrecognized (gameType : jsval) :
  ¬ recognized gameType →
  strict_eq gameType (VStr "dice") = false
  ∧ strict_eq gameType (VStr "rps") = false.
Proof.
  intros Hrec.
  split; apply not_true_is_false; intros H; apply strict_eq_eq in H;
    apply Hrec; [by left | by right].
Qed.

(** X10.  [play_ai] accepts any game type among the values of [jsval].
    In the game it creates for a type that is neither the string dice nor
    the string rps the AI never answers: every move of the player is recorded, so that after any
    sequence of moves the stored game is the one [play_ai] created with
    the last value sent as the pending move of side 1 and none on the side
    of the AI; nothing is emitted, and the round counter stays at 1. *)
Theorem ai_game_of_unknown_type_never_resolves (s : State)
    (sid gid : string) (gameType : jsval) (player : Player.t)
    (moves : list (jsval * Rnd)) :
  players s !! sid = Some player →
  Player.odId player = sid →
  ¬ recognized gameType →
  let s1 := (on_play_ai s sid gameType gid).1 in
  (on_play_ai s sid gameType gid).2
    = [(sid, ev_game_start gid gameType (Player.name player) 0 "AI Opponent" 0 true)]
  ∧ (submit_all s1 sid gid moves).2 = []
  ∧ Game.round <$> game_at (submit_all s1 sid gid moves).1 gid = Some 1
  ∧ game_at (submit_all s1 sid gid moves).1 gid =
      Some (Game.mk gid gameType
              (Side.mk sid (Player.name player) 0
                 (default VNull (last (fst <$> moves))) false)
              (Side.mk "AI" "AI Opponent" 0 VNull true) playing 1)
  ∧ leaderboard (submit_all s1 sid gid moves).1 = leaderboard s.
Proof.
  intros Hp Hid Hrec s1.
  destruct (strict_eq_unrecognized gameType Hrec) as [Hd Hr].
  split; [unfold on_play_ai; by rewrite Hp|].
  assert (games s1 !! gid =
            Some (Game.mk gid gameType
                    (Side.mk sid (Player.name player) 0 VNull false)
                    (Side.mk "AI" "AI Opponent" 0 VNull true) playing 1)
          ∧ is_Some (players s1 !! sid)
          ∧ leaderboard s1 = leaderboard s) as Hs1.
  { unfold s1, on_play_ai. rewrite Hp. simpl.
    rewrite !lookup_insert_eq, Hid. by eauto. }
  clearbody s1. clear Hp.
  assert (∀ (ms : list (jsval * Rnd)) (m : jsval) (s2 : State),
            games s2 !! gid =
              Some (Game.mk gid gameType
                      (Side.mk sid (Player.name player) 0 m false)
                      (Side.mk "AI" "AI Opponent" 0 VNull true) playing 1)
            ∧ is_Some (players s2 !! sid)
            ∧ leaderboard s2 = leaderboard s →
            (submit_all s2 sid gid ms).2 = []
            ∧ Game.round <$> game_at (submit_all s2 sid gid ms).1 gid = Some 1
            ∧ game_at (submit_all s2 sid gid ms).1 gid =
                Some (Game.mk gid gameType
                        (Side.mk sid (Player.name player) 0
                           (default m (last (fst <$> ms))) false)
                        (Side.mk "AI" "AI Opponent" 0 VNull true) playing 1)
            ∧ leaderboard (submit_all s2 sid gid ms).1 = leaderboard s)
    as Hgen; [|by apply Hgen].
  clear s1 Hs1.
  induction ms as [|[mv r] ms IH]; intros m s1 (Hg & [p Hp] & Hlb); simpl.
  - unfold game_at. simpl. by rewrite Hg.
  - assert (recorded sid mv (u_ai r)
              (Game.mk gid gameType (Side.mk sid (Player.name player) 0 m false)
                 (Side.mk "AI" "AI Opponent" 0 VNull true) playing 1)
            = Game.mk gid gameType (Side.mk sid (Player.name player) 0 mv false)
                (Side.mk "AI" "AI Opponent" 0 VNull true) playing 1) as Hrecd.
    { unfold recorded, ai_reply, is_p1. simpl.
      rewrite String.eqb_refl. simpl. by rewrite Hd, Hr. }
    assert (both_moved sid
              (Game.mk gid gameType (Side.mk sid (Player.name player) 0 mv false)
                 (Side.mk "AI" "AI Opponent" 0 VNull true) playing 1) = false)
      as Hb.
    { unfold both_moved, is_p1. simpl. rewrite String.eqb_refl. simpl.
      apply andb_false_r. }
    rewrite <- Hrecd in Hb.
    rewrite (on_move_pending s1 sid gid mv r _ p Hg Hp eq_refl Hb).
    rewrite Hrecd. unfold is_p1. simpl. rewrite String.eqb_refl. simpl.
    match goal with |- context [submit_all ?s2 sid gid ms] =>
      specialize (IH mv s2); destruct (submit_all s2 sid gid ms) as [s3 out3]
    end.
    simpl in *.
    rewrite default_last_cons. apply IH. simpl. rewrite lookup_insert_eq. eauto.
Qed.

Lemma ai_game_of_unknown_type_never_resolves_witness :
  let s := (on_register initial "a" (Some "Ann")).1 in
  let s1 := (on_play_ai s "a" (VStr "chess") "g1").1 in
  let moves := [(VStr "e4", no_rnd); (VStr "rock", no_rnd)] in
  (submit_all s1 "a" "g1" moves).2 = []
  ∧ Game.round <$> game_at (submit_all s1 "a" "g1" moves).1 "g1" = Some 1
  ∧ game_at (submit_all s1 "a" "g1" moves).1 "g1" =
      Some (Game.mk "g1" (VStr "chess") (Side.mk "a" "Ann" 0 (VStr "rock") false)
              (Side.mk "AI" "AI Opponent" 0 VNull true) playing 1)
  ∧ leaderboard (submit_all s1 "a" "g1" moves).1 = leaderboard s.
Proof.
  intros s s1 moves.
  assert (¬ recognized (VStr "chess")) as Hn by (by intros [|]).
  exact (proj2 (ai_game_of_unknown_type_never_resolves s "a" "g1" (VStr "chess")
                  (Player.mk "a" "Ann" None) moves eq_refl eq_refl Hn)).
Defined.



(** X12.  A player may change its mind while the human opponent has not
    moved: sending a second move gives the same state and the same events
    as sending only that second move. *)
Theorem resubmission_overwrites (s : State) (sid gameId : string)
    (m1 m2 : jsval) (r1 r2 : Rnd) (game : Game.t) (player : Player.t) :
  games s !! gameId = Some game →
  players s !! sid = Some player →
  Game.status game = playing →
  Side.isAI (opponent (is_p1 sid game) game) = false →
  truthy (Side.move (opponent (is_p1 sid game) game)) = false →
  on_move (on_move s sid gameId m1 r1).1 sid gameId m2 r2
  = on_move s sid gameId m2 r2.
Proof.
  intros Hg Hp Hs Hai Hopp.
  set (rec m := set_currentPlayer (is_p1 sid game)
                  (Side.set_move m (currentPlayer (is_p1 sid game) game)) game).
  assert (∀ m u g, g = game ∨ g = rec m1 →
            recorded sid m u g = rec m
            ∧ both_moved sid (recorded sid m u g) = false
            ∧ Game.status g = playing) as Hstep.
  { intros m u g Hgm.
    assert (is_p1 sid g = is_p1 sid game
            ∧ Side.isAI (opponent (is_p1 sid game) g) = false
            ∧ truthy (Side.move (opponent (is_p1 sid game) g)) = false
            ∧ Game.status g = playing
            ∧ set_currentPlayer (is_p1 sid game)
                (Side.set_move m (currentPlayer (is_p1 sid game) g)) g = rec m)
      as (Hi & Ha & Ho & Hst & Hr).
    { destruct Hgm as [-> | ->]; [by repeat split|].
      unfold rec, is_p1 in *.
      destruct (String.eqb (Side.odId (Game.player1 game)) sid) eqn:E;
        simpl in *; rewrite ?E; by repeat split. }
    assert (recorded sid m u g = rec m) as Hrec.
    { rewrite recorded_human; rewrite Hi; done. }
    split; [done|]. split; [|done].
    rewrite Hrec. unfold both_moved.
    assert (is_p1 sid (rec m) = is_p1 sid game) as ->.
    { unfold rec. destruct (is_p1 sid game) eqn:E; unfold is_p1 in *; simpl;
        by rewrite ?E. }
    replace (Side.move (opponent (is_p1 sid game) (rec m)))
      with (Side.move (opponent (is_p1 sid game) game))
      by (unfold rec; by destruct (is_p1 sid game)).
    rewrite Hopp. apply andb_false_r. }
  destruct (Hstep m1 (u_ai r1) game (or_introl eq_refl)) as (Hr1 & Hb1 & _).
  destruct (Hstep m2 (u_ai r2) game (or_introl eq_refl)) as (Hr2 & Hb2 & _).
  destruct (Hstep m2 (u_ai r2) (rec m1) (or_intror eq_refl)) as (Hr3 & Hb3 & Hs3).
  rewrite (on_move_pending s sid gameId m1 r1 game player Hg Hp Hs Hb1).
  rewrite (on_move_pending s sid gameId m2 r2 game player Hg Hp Hs Hb2).
  rewrite Hr1, Hr2. simpl.
  assert (games (set_games (<[gameId:=rec m1]> (games s)) s) !! gameId
          = Some (rec m1)) as Hg' by apply lookup_insert_eq.
  rewrite (on_move_pending _ sid gameId m2 r2 (rec m1) player Hg' Hp Hs3 Hb3).
  rewrite Hr3. unfold set_games. simpl. rewrite insert_insert_eq.
  assert (is_p1 sid (rec m1) = is_p1 sid game) as ->.
  { unfold rec. destruct (is_p1 sid game) eqn:E; unfold is_p1 in *; simpl;
      by rewrite ?E. }
  done.
Qed.

Lemma resubmission_overwrites_witness :
  on_move (on_move (paired "rps") "a" "g1" (VStr "rock") no_rnd).1
    "a" "g1" (VStr "paper") no_rnd
  = on_move (paired "rps") "a" "g1" (VStr "paper") no_rnd.
Proof.
  exact (resubmission_overwrites (paired "rps") "a" "g1" (VStr "rock")
           (VStr "paper") no_rnd no_rnd (fresh_game "rps" VNull VNull)
           (Player.mk "a" "Ann" (Some "g1")) eq_refl eq_refl eq_refl
           eq_refl eq_refl).
Defined.

(** ** Leaving and disconnecting *)

(** X13.  [leave_game] sent by a player whose record names an existing
    game ends the game, clears the player's reference and confirms with
    [left_game].  When the other side is the AI the leaderboard is not
    touched.  When it is a human, it is sent [opponent_left], its entry
    gets a win and 10 points and the leaver's entry a loss, whatever the
    scores in the game are; no other entry changes. *)
Theorem leave_game_effect (s : State) (sid gameId : string)
    (player : Player.t) (game : Game.t) :
  players s !! sid = Some player →
  Player.currentGame player = Some gameId →
  gameId ≠ "" →
  games s !! gameId = Some game →
  let opp := opponent_of sid game in
  let s' := (on_leave_game s sid).1 in
  let out := (on_leave_game s sid).2 in
  game_at s' gameId = Some (Game.set_status ended game)
  ∧ players s' !! sid = Some (Player.set_currentGame None player)
  ∧ (Side.isAI opp = true →
       leaderboard s' = leaderboard s ∧ out = [(sid, ev_left_game)])
  ∧ (Side.isAI opp = false →
       out = [(Side.odId opp, ev_opponent_left "Opponent left the game");
              (sid, ev_left_game)]
       ∧ (∀ k, k ≠ sid → k ≠ Side.odId opp → entry_of s' k = entry_of s k)
       ∧ (Side.odId opp ≠ sid →
            entry_of s' (Side.odId opp) = entry_won <$> entry_of s (Side.odId opp)
            ∧ entry_of s' sid = entry_lost <$> entry_of s sid)).
Proof.
  intros Hp Hc Hne Hg opp s' out.
  assert (truthy_ref (Player.currentGame player) = true) as Ht.
  { rewrite Hc. simpl. by rewrite (proj2 (String.eqb_neq _ _) Hne). }
  subst s' out. unfold on_leave_game. rewrite Hp, Ht, Hc. simpl. rewrite Hg.
  fold opp. unfold game_at, entry_of.
  destruct (Side.isAI opp); simpl; rewrite !lookup_insert_eq;
    (do 2 (split; [done|])); [by split|].
  split; [intros [=]|]. intros _.
  split; [done|]. split.
  - intros k H1 H2. rewrite !lb_get_update_ne; done || by apply not_eq_sym.
  - intros Hd. split.
    + rewrite lb_get_update_ne by (by apply not_eq_sym).
      apply lb_get_update_eq.
    + rewrite lb_get_update_eq. by rewrite lb_get_update_ne.
Qed.

Lemma leave_game_effect_witness :
  let s' := (on_leave_game (paired "dice") "a").1 in
  Game.status <$> game_at s' "g1" = Some ended
  ∧ entry_of s' "b" = entry_won <$> entry_of (paired "dice") "b"
  ∧ entry_of s' "a" = entry_lost <$> entry_of (paired "dice") "a".
Proof.
  intros s'.
  destruct (leave_game_effect (paired "dice") "a" "g1"
              (Player.mk "a" "Ann" (Some "g1")) (fresh_game "dice" VNull VNull)
              eq_refl eq_refl ltac:(discriminate) eq_refl)
    as (H1 & _ & _ & H2).
  destruct (H2 eq_refl) as (_ & _ & H3).
  destruct (H3 ltac:(discriminate)) as (H4 & H5).
  split; [unfold s'; by rewrite H1|]. exact (conj H4 H5).
Defined.

(** X14.  The disconnect of a registered connection removes its player
    record and takes it out of both queues, keeping the order of the
    others; the other player records and the leaderboard, its own entry
    included, stay as they are, and a second disconnect finds nothing to
    do. *)
Theorem disconnect_effect (s : State) (sid : string) (player : Player.t) :
  players s !! sid = Some player →
  let s' := (on_disconnect s sid).1 in
  players s' = delete sid (players s)
  ∧ Queues.dice (queues s') = filter (λ id, id ≠ sid) (Queues.dice (queues s))
  ∧ Queues.rps (queues s') = filter (λ id, id ≠ sid) (Queues.rps (queues s))
  ∧ (sid ∉ Queues.dice (queues s')) ∧ (sid ∉ Queues.rps (queues s'))
  ∧ leaderboard s' = leaderboard s
  ∧ on_disconnect s' sid = (s', []).
Proof.
  intros Hp s'.
  assert (players s' = delete sid (players s)
          ∧ queues s' = purge_queues sid (queues s)) as [Hps Hqs].
  { subst s'. unfold on_disconnect. rewrite Hp.
    destruct (truthy_ref _); [|done]. simpl.
    destruct (games s !! _) as [game|]; [|done]. by case_bool_decide. }
  split; [done|]. rewrite Hqs. simpl. do 2 (split; [done|]).
  split; [rewrite list_elem_of_filter; by intros []|].
  split; [rewrite list_elem_of_filter; by intros []|].
  split; [apply on_disconnect_leaderboard|].
  unfold on_disconnect at 1. by rewrite Hps, lookup_delete_eq.
Qed.

Lemma disconnect_effect_witness :
  let s := state_of (run initial [("a", Register None); ("a", JoinQueue (VStr "rps") "g")]) in
  Queues.rps (queues s) = ["a"]
  ∧ Queues.rps (queues (on_disconnect s "a").1) = []
  ∧ leaderboard (on_disconnect s "a").1 = leaderboard s.
Proof.
  intros s.
  destruct (disconnect_effect s "a" (Player.mk "a" "Player_a" None) eq_refl)
    as (_ & _ & H1 & _ & _ & H2 & _).
  split; [reflexivity|]. split; [by rewrite H1 | exact H2].
Defined.

(** X15.  The disconnect of a player in an active game ends the game and
    changes nothing else in it; a human opponent is sent [opponent_left],
    the AI is sent nothing.  When the game has already ended nothing is
    emitted and the game is left as it is. *)
Theorem disconnect_ends_game (s : State) (sid gameId : string)
    (player : Player.t) (game : Game.t) :
  players s !! sid = Some player →
  Player.currentGame player = Some gameId →
  gameId ≠ "" →
  games s !! gameId = Some game →
  let opp := opponent_of sid game in
  let s' := (on_disconnect s sid).1 in
  let out := (on_disconnect s sid).2 in
  game_at s' gameId = Some (Game.set_status ended game)
  ∧ out = (if bool_decide (Game.status game = playing) && negb (Side.isAI opp)
           then [(Side.odId opp, ev_opponent_left "Opponent disconnected")]
           else []).
Proof.
  intros Hp Hc Hne Hg opp s' out.
  assert (truthy_ref (Player.currentGame player) = true) as Ht.
  { rewrite Hc. simpl. by rewrite (proj2 (String.eqb_neq _ _) Hne). }
  subst s' out. unfold on_disconnect, game_at. rewrite Hp, Ht, Hc. simpl.
  rewrite Hg. fold opp.
  case_bool_decide as Hst; simpl.
  - rewrite lookup_insert_eq. by destruct (Side.isAI opp).
  - rewrite Hg. f_equal. destruct game; simpl in *. by destruct status.
Qed.

Lemma disconnect_ends_game_witness :
  Game.status <$> game_at (on_disconnect (versus_ai "rps") "a").1 "g1" = Some ended
  ∧ (on_disconnect (versus_ai "rps") "a").2 = [].
Proof.
  destruct (disconnect_ends_game (versus_ai "rps") "a" "g1"
              (Player.mk "a" "Ann" (Some "g1"))
              (createGame "g1" (VStr "rps") "a" "Ann" "AI" "AI Opponent" true ∅).1
              eq_refl eq_refl ltac:(discriminate) eq_refl) as (H1 & H2).
  split; [by rewrite H1 | exact H2].
Defined.

(** ** The queues *)

Lemma queues_get_set (gameType : jsval) (l : list string) (q : Queues.t) :
  names_queue gameType → Queues.get gameType (Queues.set gameType l q) = Own l.
Proof. unfold Queues.get, Queues.set. by intros [-> | ->]. Qed.

Lemma queues_get_names (gameType : jsval) (qs : Queues.t) (q : list string) :
  Queues.get gameType qs = Own q → names_queue gameType.
Proof.
  unfold Queues.get, names_queue.
  destruct (key_of gameType) as [k|]; [|done].
  destruct (String.eqb_spec k "dice") as [->|]; [by left|].
  destruct (String.eqb_spec k "rps") as [->|]; [by right|].
  by destruct (inherited k).
Qed.

(** X16.  A registered connection that is already waiting in the queue of
    a game type and asks for it again is sent the error ["Already in
    queue"]; the state is unchanged. *)
Theorem join_queue_twice (s : State) (sid : string) (gameType : jsval)
    (gid : string) (player : Player.t) (q : list string) :
  players s !! sid = Some player →
  Queues.get gameType (queues s) = Own q →
  sid ∈ q →
  on_join_queue s sid gameType gid = Done s [(sid, ev_error "Already in queue")].
Proof.
  intros Hp Hq Hin. unfold on_join_queue.
  by rewrite Hp, Hq, bool_decide_eq_true_2.
Qed.

Lemma join_queue_twice_witness :
  let s := state_of (run initial [("a", Register None); ("a", JoinQueue (VStr "rps") "g")]) in
  on_join_queue s "a" (VStr "rps") "g" = Done s [("a", ev_error "Already in queue")].
Proof.
  intros s.
  apply (join_queue_twice s "a" (VStr "rps") "g" (Player.mk "a" "Player_a" None) ["a"]);
    [reflexivity | reflexivity | by apply list_elem_of_here].
Defined.

(** X17.  A registered connection joining an empty queue waits there at
    position 1: no game is created and no player record changes. *)
Theorem join_queue_waits (s : State) (sid : string) (gameType : jsval)
    (gid : string) (player : Player.t) :
  players s !! sid = Some player →
  Queues.get gameType (queues s) = Own [] →
  ∃ s',
    on_join_queue s sid gameType gid = Done s' [(sid, ev_queued gameType 1)]
    ∧ Queues.get gameType (queues s') = Own [sid]
    ∧ games s' = games s ∧ players s' = players s
    ∧ leaderboard s' = leaderboard s.
Proof.
  intros Hp Hq. unfold on_join_queue. rewrite Hp, Hq. simpl.
  eexists. split; [reflexivity|]. simpl. split; [|done].
  by apply queues_get_set, (queues_get_names _ _ _ Hq).
Qed.

Lemma join_queue_waits_witness :
  let s := (on_register initial "a" None).1 in
  ∃ s', on_join_queue s "a" (VStr "dice") "g" = Done s' [("a", ev_queued (VStr "dice") 1)]
        ∧ Queues.get (VStr "dice") (queues s') = Own ["a"].
Proof.
  intros s.
  destruct (join_queue_waits s "a" (VStr "dice") "g" (Player.mk "a" "Player_a" None)
              eq_refl eq_refl) as (s' & H1 & H2 & _).
  exists s'. exact (conj H1 H2).
Defined.

(** X18.  A registered connection joining a queue in which one other
    registered connection waits is paired with it at once: the queue is
    emptied, a game of that type is created with the connection that
    waited as side 1 and the newcomer as side 2, both human, at round 1
    with scores 0 and no pending moves, both player records refer to it,
    and after [queued] with position 2 each of the two is sent [game_start]
    with its own name first. *)
Theorem join_queue_pairs (s : State) (sid : string) (gameType : jsval)
    (gid p1Id : string) (p1 p2 : Player.t) :
  players s !! p1Id = Some p1 →
  players s !! sid = Some p2 →
  Queues.get gameType (queues s) = Own [p1Id] →
  p1Id ≠ sid →
  ∃ s',
    on_join_queue s sid gameType gid =
      Done s'
        [(sid, ev_queued gameType 2);
         (p1Id, ev_game_start gid gameType (Player.name p1) 0 (Player.name p2) 0 false);
         (sid, ev_game_start gid gameType (Player.name p2) 0 (Player.name p1) 0 false)]
    ∧ Queues.get gameType (queues s') = Own []
    ∧ games s' !! gid =
        Some (Game.mk gid gameType
                (Side.mk (Player.odId p1) (Player.name p1) 0 VNull false)
                (Side.mk (Player.odId p2) (Player.name p2) 0 VNull false)
                playing 1)
    ∧ players s' !! p1Id = Some (Player.set_currentGame (Some gid) p1)
    ∧ players s' !! sid = Some (Player.set_currentGame (Some gid) p2)
    ∧ leaderboard s' = leaderboard s.
Proof.
  intros Hp1 Hp2 Hq Hne. unfold on_join_queue. rewrite Hp2, Hq.
  rewrite bool_decide_eq_false_2
    by (rewrite list_elem_of_singleton; by apply not_eq_sym).
  simpl. rewrite Hp1, Hp2. simpl.
  eexists. split; [reflexivity|]. simpl.
  rewrite lookup_insert_eq, lookup_insert_ne, !lookup_insert_eq by done.
  split; [|done].
  by apply queues_get_set, (queues_get_names _ _ _ Hq).
Qed.

Lemma join_queue_pairs_witness :
  let s := state_of (run initial [("a", Register (Some "Ann"));
                                  ("b", Register (Some "Bob"));
                                  ("a", JoinQueue (VStr "dice") "g0")]) in
  ∃ s',
    on_join_queue s "b" (VStr "dice") "g1" =
      Done s' [("b", ev_queued (VStr "dice") 2);
               ("a", ev_game_start "g1" (VStr "dice") "Ann" 0 "Bob" 0 false);
               ("b", ev_game_start "g1" (VStr "dice") "Bob" 0 "Ann" 0 false)]
    ∧ Queues.get (VStr "dice") (queues s') = Own [].
Proof.
  intros s.
  destruct (join_queue_pairs s "b" (VStr "dice") "g1" "a"
              (Player.mk "a" "Ann" None) (Player.mk "b" "Bob" None)
              eq_refl eq_refl eq_refl ltac:(discriminate))
    as (s' & H1 & H2 & _).
  exists s'. exact (conj H1 H2).
Defined.

(** X19.  [leave_queue] for a game type that names the dice or the rps
    queue, which the strings dice and rps do and so does an array or object
    that converts to one of them, takes the caller out of that queue,
    keeping the others in order, leaves the other queue alone and confirms
    with [left_queue] carrying the game type as it was sent, whether or not
    the caller was waiting or is registered; when it was not waiting the
    queues are unchanged.  For a game type that names neither queue the
    handler stops at an uncaught [TypeError], the state untouched and
    nothing emitted. *)
Theorem leave_queue_effect (s : State) (sid : string) (gameType : jsval) :
  (key_of gameType = Some "dice" →
     on_leave_queue s sid gameType =
       Done (set_queues
               (Queues.mk (filter (λ id, id ≠ sid) (Queues.dice (queues s)))
                  (Queues.rps (queues s))) s)
         [(sid, ev_left_queue gameType)])
  ∧ (key_of gameType = Some "rps" →
     on_leave_queue s sid gameType =
       Done (set_queues
               (Queues.mk (Queues.dice (queues s))
                  (filter (λ id, id ≠ sid) (Queues.rps (queues s)))) s)
         [(sid, ev_left_queue gameType)])
  ∧ (names_queue gameType →
     sid ∉ Queues.dice (queues s) → sid ∉ Queues.rps (queues s) →
     queues (state_of (on_leave_queue s sid gameType)) = queues s)
  ∧ (¬ names_queue gameType → on_leave_queue s sid gameType = Threw s []).
Proof.
  assert (∀ l : list string, sid ∉ l → filter (λ id, id ≠ sid) l = l) as Hfilter.
  { intros l. induction l as [|x l IH]; [done|].
    rewrite not_elem_of_cons. intros [Hx Hl].
    rewrite filter_cons_True by (by apply not_eq_sym). by rewrite IH. }
  split; [intros Hk; unfold on_leave_queue, Queues.get, Queues.set;
          by rewrite Hk|].
  split; [intros Hk; unfold on_leave_queue, Queues.get, Queues.set;
          by rewrite Hk|].
  split.
  - intros [Hk | Hk] Hd Hr;
      unfold on_leave_queue, Queues.get, Queues.set; rewrite Hk; simpl;
      rewrite Hfilter by done; by destruct (queues s).
  - intros Hn. unfold on_leave_queue.
    by destruct (queues_get_unnamed gameType (queues s) Hn) as [-> | ->].
Qed.

Lemma leave_queue_effect_witness :
  let s := state_of (run initial [("a", Register None);
                                  ("a", JoinQueue (VStr "dice") "g")]) in
  on_leave_queue s "a" (VObj "dice") =
    Done (set_queues (Queues.mk [] []) s) [("a", ev_left_queue (VObj "dice"))]
  ∧ on_leave_queue s "a" (VStr "chess") = Threw s [].
Proof.
  intros s.
  destruct (leave_queue_effect s "a" (VObj "dice")) as (H1 & _).
  destruct (leave_queue_effect s "a" (VStr "chess")) as (_ & _ & _ & H2).
  split; [exact (H1 eq_refl) | apply H2; by intros [|]].
Defined.

(** ** Registration and the stats endpoint *)

Lemma lb_get_app_entry (k : string) (e : Entry.t) (lb : Leaderboard) :
  lb_get k (lb ++ [e])
  = match lb_get k lb with
    | Some x => Some x
    | None => if String.eqb (Entry.odId e) k then Some e else None
    end.
Proof.
  unfold lb_get. induction lb as [|x lb IH]; simpl; [done|].
  by destruct (String.eqb (Entry.odId x) k).
Qed.

Lemma lb_has_elem_of (k : string) (lb : Leaderboard) :
  lb_has k lb = true ↔ k ∈ Entry.odId <$> lb.
Proof.
  unfold lb_has, lb_get. induction lb as [|x lb IH].
  - split; [done | by intros ?%elem_of_nil].
  - rewrite fmap_cons, elem_of_cons. simpl.
    destruct (String.eqb_spec (Entry.odId x) k) as [->|Hne]; [split; auto|].
    rewrite IH. split; [auto | intros [|]; [congruence | done]].
Qed.

(** X20.  [register] stores a player record with no current game under the
    caller's id, named as requested, or ["Player_"] followed by the first
    four characters of the id when no name or an empty one is given.  A
    caller without a leaderboard entry gets one with that name and zero
    wins, losses and score, added after the existing ones.  Other player
    records, existing leaderboard entries, games and queues are untouched,
    and the caller is sent one [registered] event with the top ten. *)
Theorem register_effect (s : State) (sid : string) (name : option string) :
  let s' := (on_register s sid name).1 in
  ∃ pname,
    (∀ n, name = Some n → n ≠ "" → pname = n)
    ∧ (name = None ∨ name = Some "" →
       pname = "Player_" +:+ String.substring 0 4 sid)
    ∧ players s' = <[sid := Player.mk sid pname None]> (players s)
    ∧ (∀ k e, entry_of s k = Some e → entry_of s' k = Some e)
    ∧ (entry_of s sid = None →
       leaderboard s' = leaderboard s ++ [Entry.mk sid pname 0 0 0]
       ∧ entry_of s' sid = Some (Entry.mk sid pname 0 0 0))
    ∧ games s' = games s ∧ queues s' = queues s
    ∧ (on_register s sid name).2
      = [(sid, ev_registered sid pname (getTopPlayers 10 (leaderboard s')))].
Proof.
  intros s'. subst s'. unfold on_register, entry_of, lb_has. simpl.
  eexists. split; [|split; [|split; [reflexivity|]]].
  - intros n -> Hn. by rewrite (proj2 (String.eqb_neq _ _) Hn).
  - by intros [-> | ->].
  - split; [|split; [|done]].
    + intros k e He. destruct (lb_get sid (leaderboard s)); simpl; [done|].
      by rewrite lb_get_app_entry, He.
    + intros Hn. rewrite Hn. simpl. split; [done|].
      by rewrite lb_get_app_entry, Hn, String.eqb_refl.
Qed.

(** X21.  The [online] count of [/api/stats] grows by one when a
    connection registers for the first time, stays when it registers
    again, and drops by one when a registered connection disconnects; the
    disconnect of an unregistered connection changes no count. *)
Theorem stats_online (s : State) (sid : string) (name : option string) :
  online (api_stats (on_register s sid name).1)
  = (if bool_decide (is_Some (players s !! sid))
     then online (api_stats s) else S (online (api_stats s)))
  ∧ (if bool_decide (is_Some (players s !! sid))
     then S (online (api_stats (on_disconnect s sid).1)) = online (api_stats s)
     else api_stats (on_disconnect s sid).1 = api_stats s)
  ∧ games_count (api_stats (on_register s sid name).1) = games_count (api_stats s)
  ∧ games_count (api_stats (on_disconnect s sid).1) = games_count (api_stats s).
Proof.
  unfold api_stats. simpl.
  assert (size (games (on_disconnect s sid).1) = size (games s)
          ∧ (∀ p, players s !! sid = Some p →
               players (on_disconnect s sid).1 = delete sid (players s))
          ∧ (players s !! sid = None → (on_disconnect s sid).1 = s))
    as (Hgs & Hps & Hno).
  { unfold on_disconnect. destruct (players s !! sid) as [p|]; [|done].
    destruct (truthy_ref _); simpl; [|by (split; [|split; [intros|]])].
    destruct (games s !! default "" (Player.currentGame p)) as [game|] eqn:Hg;
      simpl; [|by (split; [|split; [intros|]])].
    case_bool_decide; simpl; (split; [|split; [by intros|done]]); [|done].
    by rewrite map_size_insert_Some. }
  case_bool_decide as Hreg.
  - destruct Hreg as [p Hp].
    rewrite map_size_insert_Some by eauto. split; [done|].
    rewrite (Hps p Hp), map_size_delete_Some by eauto.
    assert (size (players s) ≠ 0%nat).
    { apply map_size_ne_0_lookup_2 with sid. eauto. }
    split; [lia | done].
  - assert (players s !! sid = None) as Hn.
    { destruct (players s !! sid); [|done]. exfalso. apply Hreg. eauto. }
    rewrite map_size_insert_None by done. split; [done|].
    by rewrite (Hno Hn).
Qed.

(** ** What every reachable state satisfies *)

Lemma inv_games_update (s : State) (k : string) (g : Game.t) :
  Inv s → game_ok k g → Inv (set_games (<[k := g]> (games s)) s).
Proof.
  intros (Hq & Hg & Hl & Hp) Hok. split; [done|]. split; [|split; [done|]].
  - intros k' g'. simpl. rewrite lookup_insert_Some.
    intros [[<- <-] | [_ H]]; [done | by apply Hg].
  - intros k' p Hk'. destruct (Hp k' p Hk') as [Hid Href].
    split; [done|]. intros g' Hc. simpl.
    rewrite lookup_insert_is_Some'. right. by apply Href.
Qed.

Lemma inv_leaderboard_update (s : State) (k : string) (won : bool) :
  Inv s → Inv (set_leaderboard (updateLeaderboard k won (leaderboard s)) s).
Proof.
  intros (Hq & Hg & (Hok & Hnd & Hhas) & Hp).
  split; [done|]. split; [done|]. split; [|done].
  unfold leaderboard_inv, set_leaderboard. cbn [leaderboard players].
  split; [|split].
  - clear Hnd Hhas. induction Hok as [|e lb He Hlb IH]; simpl; [constructor|].
    destruct (String.eqb (Entry.odId e) k); [|by constructor].
    constructor; [|done].
    destruct He as (H1 & H2 & H3).
    destruct won; unfold entry_ok; simpl; lia.
  - by rewrite updateLeaderboard_keys.
  - intros k' Hk'. apply lb_has_elem_of. rewrite updateLeaderboard_keys.
    apply lb_has_elem_of. by apply Hhas.
Qed.

Lemma inv_player_update (s : State) (k : string) (p : Player.t) :
  Inv s → is_Some (players s !! k) → Player.odId p = k →
  (∀ g, Player.currentGame p = Some g → is_Some (games s !! g)) →
  Inv (set_players (<[k := p]> (players s)) s).
Proof.
  intros ((Hqd & Hqr) & Hg & (Hok & Hnd & Hhas) & Hp) Hk Hid Href.
  assert (∀ id, is_Some (<[k := p]> (players s) !! id) ↔ is_Some (players s !! id))
    as Hsame.
  { intros id. rewrite lookup_insert_is_Some'. split; [|by auto].
    intros [<- | H]; done. }
  split; [|split; [done|split]].
  - split; [destruct Hqd as [H1 H2] | destruct Hqr as [H1 H2]];
      (split; [done|]); intros id Hin; simpl; apply Hsame; by apply H2.
  - split; [done|]. split; [done|]. intros k' Hk'. simpl in *.
    apply Hhas. by apply Hsame.
  - intros k' p'. simpl. rewrite lookup_insert_Some.
    intros [[<- <-] | [_ H]]; [done | by apply Hp].
Qed.

Lemma inv_player_delete (s : State) (k : string) :
  Inv s → k ∉ Queues.dice (queues s) → k ∉ Queues.rps (queues s) →
  Inv (set_players (delete k (players s)) s).
Proof.
  intros ((Hqd & Hqr) & Hg & (Hok & Hnd & Hhas) & Hp) Hd Hr.
  split; [|split; [done|split]].
  - split; [destruct Hqd as [H1 H2] | destruct Hqr as [H1 H2]];
      (split; [done|]); intros id Hin; simpl;
      rewrite lookup_delete_is_Some; (split; [by intros -> | by apply H2]).
  - split; [done|]. split; [done|]. intros k'. simpl.
    rewrite lookup_delete_is_Some. intros [_ H]. by apply Hhas.
  - intros k' p'. simpl. rewrite lookup_delete_Some. intros [_ H]. by apply Hp.
Qed.

Lemma inv_queue_update (s : State) (gameType : jsval) (l : list string) :
  Inv s → queue_ok (players s) l →
  Inv (set_queues (Queues.set gameType l (queues s)) s).
Proof.
  intros ((Hqd & Hqr) & Hrest) Hl. split; [|done].
  unfold queues_inv, Queues.set. simpl.
  destruct (key_of gameType) as [k|]; [|done].
  destruct (String.eqb k "dice"); [done|].
  by destruct (String.eqb k "rps").
Qed.

Lemma queue_ok_filter (ps : gmap string Player.t) (sid : string) (q : list string) :
  queue_ok ps q → queue_ok ps (filter (λ id, id ≠ sid) q).
Proof.
  intros [Hlen Hreg]. split.
  - pose proof (length_filter (λ id, id ≠ sid) q). lia.
  - intros id [_ Hin]%list_elem_of_filter. by apply Hreg.
Qed.

Lemma queues_get_own (gameType : jsval) (qs : Queues.t) (q : list string) :
  Queues.get gameType qs = Own q →
  (key_of gameType = Some "dice" ∧ q = Queues.dice qs)
  ∨ (key_of gameType = Some "rps" ∧ q = Queues.rps qs).
Proof.
  unfold Queues.get.
  destruct (key_of gameType) as [k|]; [|done].
  destruct (String.eqb_spec k "dice") as [->|]; [intros [=]; by left|].
  destruct (String.eqb_spec k "rps") as [->|]; [intros [=]; by right|].
  by destruct (inherited k).
Qed.

Lemma recorded_id (sid : string) (mv : jsval) (u : Q) (g : Game.t) :
  Game.id (recorded sid mv u g) = Game.id g.
Proof.
  unfold recorded, ai_reply, set_opponent, set_currentPlayer. by repeat case_match.
Qed.

Lemma game_ok_frame (k : string) (g g' : Game.t) :
  game_ok k g →
  Game.id g' = Game.id g → Game.type g' = Game.type g →
  Game.round g ≤ Game.round g' →
  Side.score (Game.player1 g) ≤ Side.score (Game.player1 g') →
  Side.score (Game.player2 g) ≤ Side.score (Game.player2 g') →
  Side.odId (Game.player1 g') = Side.odId (Game.player1 g) →
  Side.odId (Game.player2 g') = Side.odId (Game.player2 g) →
  Side.isAI (Game.player1 g') = Side.isAI (Game.player1 g) →
  Side.isAI (Game.player2 g') = Side.isAI (Game.player2 g) →
  game_ok k g'.
Proof.
  intros (H1 & H2 & H3 & H4 & H5 & H6) E1 E2 E3 E4 E5 E6 E7 E8 E9.
  unfold game_ok. rewrite E1, E2, E6, E7, E8, E9.
  repeat split; try done; try lia; by apply H6.
Qed.

Lemma on_register_inv (s : State) (sid : string) (name : option string) :
  Inv s → Inv (on_register s sid name).1.
Proof.
  intros ((Hqd & Hqr) & Hg & (Hok & Hnd & Hhas) & Hp).
  pose proof (lb_has_registered s sid name) as Hnew.
  unfold on_register in *. simpl in *.
  set (pname := match name with
                | Some n => if String.eqb n "" then _ else n
                | None => _ end) in *.
  set (lb' := if negb (lb_has sid (leaderboard s)) then _ else _) in *.
  assert (∀ k, lb_has k (leaderboard s) = true → lb_has k lb' = true) as Hmono.
  { intros k Hk. subst lb'. destruct (lb_has sid (leaderboard s)); simpl; [done|].
    apply lb_has_elem_of. rewrite fmap_app, elem_of_app. left.
    by apply lb_has_elem_of. }
  split; [|split; [done|split]].
  - split; [destruct Hqd as [H1 H2] | destruct Hqr as [H1 H2]];
      (split; [done|]); intros id Hin; simpl;
      rewrite lookup_insert_is_Some'; right; by apply H2.
  - unfold leaderboard_inv. cbn [leaderboard players fst]. split; [|split].
    + subst lb'. destruct (lb_has sid (leaderboard s)); simpl; [done|].
      apply Forall_app. split; [done|]. by repeat constructor.
    + subst lb'. destruct (lb_has sid (leaderboard s)) eqn:Hh; simpl; [done|].
      rewrite fmap_app. apply NoDup_app. split; [done|]. split; [|apply NoDup_singleton].
      intros x Hx. simpl. rewrite list_elem_of_singleton. intros ->.
      apply lb_has_elem_of in Hx. congruence.
    + intros k. rewrite lookup_insert_is_Some'. intros [<- | Hk]; [done|].
      by apply Hmono, Hhas.
  - intros k p. simpl. rewrite lookup_insert_Some.
    intros [[<- <-] | [_ H]]; [done | by apply Hp].
Qed.

Lemma on_leave_queue_inv (s : State) (sid : string) (gameType : jsval) :
  Inv s → Inv (state_of (on_leave_queue s sid gameType)).
Proof.
  intros HI. unfold on_leave_queue.
  destruct (Queues.get gameType (queues s)) as [q| |] eqn:Hq; [|done..].
  simpl. apply inv_queue_update; [done|].
  apply queue_ok_filter.
  destruct HI as ((Hqd & Hqr) & _).
  by destruct (queues_get_own _ _ _ Hq) as [[_ ->] | [_ ->]].
Qed.

Lemma on_play_ai_inv (s : State) (sid : string) (gameType : jsval)
    (gid : string) :
  Inv s → Inv (on_play_ai s sid gameType gid).1.
Proof.
  intros HI. unfold on_play_ai.
  destruct (players s !! sid) as [player|] eqn:Hp; [|done]. simpl.
  pose proof HI as (_ & _ & _ & Hps). destruct (Hps sid player Hp) as [Hid _].
  apply (inv_player_update (set_games _ s)); simpl; [|by eauto|done|].
  - apply inv_games_update; [done|]. unfold game_ok. simpl.
    repeat split; done.
  - intros g [= <-]. rewrite lookup_insert_eq. by eauto.
Qed.

Lemma on_join_queue_inv (s : State) (sid : string) (gameType : jsval)
    (gid : string) :
  Inv s → Inv (state_of (on_join_queue s sid gameType gid)).
Proof.
  intros HI. unfold on_join_queue.
  destruct (players s !! sid) as [player|] eqn:Hp; [|done].
  destruct (Queues.get gameType (queues s)) as [q| |] eqn:Hq; [|done..].
  case_bool_decide as Hin; [done|].
  pose proof HI as ((Hqd & Hqr) & _ & _ & Hps).
  assert (queue_ok (players s) q ∧ names_queue gameType) as [[Hlen Hreg] Hrec].
  { destruct (queues_get_own _ _ _ Hq) as [[Hk ->] | [Hk ->]];
      (split; [done|]); [by left | by right]. }
  destruct q as [|p1Id [|? ?]]; simpl in *; [| |lia].
  - apply inv_queue_update; [done|]. split; [simpl; lia|].
    intros id ->%list_elem_of_singleton. by eauto.
  - destruct (Hreg p1Id) as [p1 Hp1]; [by apply list_elem_of_here|].
    rewrite Hp1, Hp. simpl.
    destruct (Hps p1Id p1 Hp1) as [Hid1 Href1].
    destruct (Hps sid player Hp) as [Hid2 Href2].
    assert (p1Id ≠ sid) as Hne.
    { intros ->. apply Hin. by apply list_elem_of_here. }
    set (game := Game.mk gid gameType _ _ playing 1).
    assert (Inv (set_games (<[gid := game]> (games s))
                  (set_queues (Queues.set gameType [] (queues s)) s))) as HI1.
    { apply (inv_games_update
               (set_queues (Queues.set gameType [] (queues s)) s) gid game).
      - apply inv_queue_update; [done|]. split; [simpl; lia|].
        by intros id ?%elem_of_nil.
      - unfold game_ok, game. simpl. repeat split; try done. congruence. }
    assert (is_Some (<[gid := game]> (games s) !! gid)) as Hgid
      by (rewrite lookup_insert_eq; eauto).
    assert (Inv (set_players
                   (<[p1Id := Player.set_currentGame (Some gid) p1]> (players s))
                   (set_games (<[gid := game]> (games s))
                      (set_queues (Queues.set gameType [] (queues s)) s))))
      as HI2.
    { refine (inv_player_update _ p1Id (Player.set_currentGame (Some gid) p1)
                HI1 _ Hid1 _); [by eauto|].
      by intros g [= <-]. }
    refine (inv_player_update _ sid (Player.set_currentGame (Some gid) player)
              HI2 _ Hid2 _).
    + simpl. rewrite lookup_insert_ne by done. by eauto.
    + by intros g [= <-].
Qed.

Lemma processRound_leaderboard_shape (g : Game.t) (lb : Leaderboard) (u1 u2 : Q) :
  (processRound g lb u1 u2).1.2 = lb
  ∨ ∃ a b w1 w2,
      (processRound g lb u1 u2).1.2
      = updateLeaderboard b w2 (updateLeaderboard a w1 lb).
Proof.
  unfold processRound.
  destruct (strict_eq (Game.type g) (VStr "dice"));
    [destruct (rollDice u1 >? rollDice u2);
       [|destruct (rollDice u1 <? rollDice u2)]
    |destruct (strict_eq (Game.type g) (VStr "rps"));
       [destruct (getRPSResult _ _)|]];
    simpl; destruct (Side.isAI (Game.player2 g)); simpl; eauto 6.
Qed.

Lemma inv_round_leaderboard (s : State) (g : Game.t) (u1 u2 : Q) :
  Inv s → Inv (set_leaderboard (processRound g (leaderboard s) u1 u2).1.2 s).
Proof.
  intros HI.
  destruct (processRound_leaderboard_shape g (leaderboard s) u1 u2)
    as [-> | (a & b & w1 & w2 & ->)].
  - by destruct s.
  - exact (inv_leaderboard_update _ b w2 (inv_leaderboard_update s a w1 HI)).
Qed.

Lemma game_ok_set_status (k : string) (st : status_t) (g : Game.t) :
  game_ok k g → game_ok k (Game.set_status st g).
Proof. intros Hok. by apply (game_ok_frame k g). Qed.

Lemma on_move_inv (s : State) (sid gameId : string) (mv : jsval) (r : Rnd) :
  Inv s → Inv (on_move s sid gameId mv r).1.
Proof.
  intros HI.
  destruct (games s !! gameId) as [game|] eqn:Hg;
    [|by rewrite on_move_invalid by auto].
  destruct (players s !! sid) as [player|] eqn:Hp;
    [|by rewrite on_move_invalid by auto].
  destruct (decide (Game.status game = playing)) as [Hs|Hs];
    [|rewrite on_move_invalid; [done|]; right; right; rewrite Hg; simpl;
      by destruct (Game.status game)].
  pose proof HI as (_ & Hgames & _). specialize (Hgames gameId game Hg).
  destruct (recorded_frame sid mv (u_ai r) game)
    as (E1 & _ & E2 & E3 & E4 & E5 & E6 & E7 & E8).
  assert (game_ok gameId (recorded sid mv (u_ai r) game)) as Hok2.
  { apply (game_ok_frame gameId game); try done; try lia. apply recorded_id. }
  destruct (both_moved sid (recorded sid mv (u_ai r) game)) eqn:Hb.
  - destruct (on_move_resolved s sid gameId mv r game player Hg Hp Hs Hb)
      as (o & -> & _). simpl.
    destruct (processRound_frame (recorded sid mv (u_ai r) game) (leaderboard s)
                (u_p1 r) (u_p2 r)) as (F1 & F2 & _ & F3 & F4 & F5 & F6 & F7 & F8).
    pose proof (processRound_round (recorded sid mv (u_ai r) game) (leaderboard s)
                  (u_p1 r) (u_p2 r)) as F9.
    refine (inv_round_leaderboard (set_games _ s) _ _ _ _).
    apply inv_games_update; [done|].
    apply (game_ok_frame gameId (recorded sid mv (u_ai r) game));
      simpl; try done; lia.
  - rewrite (on_move_pending s sid gameId mv r game player Hg Hp Hs Hb). simpl.
    by apply inv_games_update.
Qed.

Lemma on_leave_game_inv (s : State) (sid : string) :
  Inv s → Inv (on_leave_game s sid).1.
Proof.
  intros HI. unfold on_leave_game.
  destruct (players s !! sid) as [player|] eqn:Hp; [|done].
  destruct (truthy_ref (Player.currentGame player)); [|done]. simpl.
  pose proof HI as (_ & Hgames & _ & Hps).
  destruct (Hps sid player Hp) as [Hid _].
  destruct (games s !! default "" (Player.currentGame player)) as [game|] eqn:Hg.
  - set (gameId := default "" (Player.currentGame player)) in *.
    assert (Inv (set_games (<[gameId := Game.set_status ended game]> (games s)) s))
      as HI1.
    { apply inv_games_update; [done|]. apply game_ok_set_status. by apply Hgames. }
    destruct (Side.isAI (opponent_of sid game)); simpl.
    + refine (inv_player_update
                (set_leaderboard (leaderboard s) (set_games _ s)) sid
                (Player.set_currentGame None player) _ _ Hid _);
        [exact HI1 | simpl; by eauto | done].
    + refine (inv_player_update
                (set_leaderboard _ (set_games _ s)) sid
                (Player.set_currentGame None player) _ _ Hid _);
        [|simpl; by eauto | done].
      exact (inv_leaderboard_update _ sid false
               (inv_leaderboard_update _ (Side.odId (opponent_of sid game)) true HI1)).
  - simpl. refine (inv_player_update s sid (Player.set_currentGame None player)
                     HI _ Hid _); [by eauto | done].
Qed.

Lemma on_disconnect_inv (s : State) (sid : string) :
  Inv s → Inv (on_disconnect s sid).1.
Proof.
  intros HI. unfold on_disconnect.
  destruct (players s !! sid) as [player|] eqn:Hp; [|done].
  assert (Inv (set_queues (purge_queues sid (queues s)) s)) as HI1.
  { destruct HI as ((Hqd & Hqr) & Hrest). split; [|done].
    split; simpl; by apply queue_ok_filter. }
  assert (∀ s2, Inv s2 → queues s2 = purge_queues sid (queues s) →
            Inv (set_players (delete sid (players s2)) s2)) as Hdel.
  { intros s2 HI2 Hq. apply inv_player_delete; [done|..]; rewrite Hq; simpl;
      rewrite list_elem_of_filter; by intros []. }
  destruct (truthy_ref (Player.currentGame player)); [|by apply Hdel].
  simpl. destruct (games s !! default "" (Player.currentGame player))
    as [game|] eqn:Hg; [|by apply Hdel].
  case_bool_decide; [|by apply Hdel].
  simpl. refine (Hdel (set_games _ (set_queues _ s)) _ eq_refl).
  refine (inv_games_update (set_queues _ s) _ _ HI1 _).
  apply game_ok_set_status. destruct HI as (_ & Hgames & _). by apply Hgames.
Qed.

Lemma handle_inv (s : State) (sid : string) (c : Cmd) :
  Inv s → Inv (state_of (handle s sid c)).
Proof.
  intros HI. destruct c; simpl.
  - by apply on_register_inv.
  - by apply on_join_queue_inv.
  - by apply on_leave_queue_inv.
  - by apply on_play_ai_inv.
  - by apply on_move_inv.
  - by apply on_leave_game_inv.
  - done.
  - by apply on_disconnect_inv.
Qed.

Lemma run_inv (cs : list (string * Cmd)) :
  ∀ s, Inv s → Inv (state_of (run s cs)).
Proof.
  induction cs as [|[sid c] cs IH]; intros s HI; simpl; [done|].
  pose proof (handle_inv s sid c HI) as H1.
  destruct (handle s sid c) as [s1 out1|s1 out1]; simpl in *; [|done].
  specialize (IH s1 H1). by destruct (run s1 cs).
Qed.

Lemma initial_inv : Inv initial.
Proof.
  repeat split; simpl; try done; try lia; try constructor;
    try (by intros ? ?%elem_of_nil).
  intros k [p Hk]. by rewrite lookup_empty in Hk.
Qed.

Lemma reachable_inv (cs : list (string * Cmd)) : Inv (state_of (run initial cs)).
Proof. apply run_inv, initial_inv. Qed.

(** X22.  In every state the server reaches from its start, each queue
    holds at most one connection, and a waiting connection is registered:
    the pairing in [join_queue] always finds both player records. *)
Theorem reachable_queues (cs : list (string * Cmd)) :
  let s := state_of (run initial cs) in
  (length (Queues.dice (queues s)) ≤ 1)%nat
  ∧ (length (Queues.rps (queues s)) ≤ 1)%nat
  ∧ ∀ id, id ∈ Queues.dice (queues s) ∨ id ∈ Queues.rps (queues s) →
      is_Some (players s !! id).
Proof.
  destruct (reachable_inv cs) as (([H1 H2] & [H3 H4]) & _).
  split; [done|]. split; [done|]. intros id [H | H]; auto.
Qed.

(** X23.  In every reachable state a game is stored under its own id, its
    round counter is at least 1, its scores are not negative and side 1 is
    never the AI; the type of a game between two humans is a value that
    names the dice or the rps queue, the string itself or an array or
    object converting to it, and its two sides have different ids. *)
Theorem reachable_games (cs : list (string * Cmd)) (k : string) (g : Game.t) :
  games (state_of (run initial cs)) !! k = Some g →
  Game.id g = k
  ∧ 1 ≤ Game.round g
  ∧ 0 ≤ Side.score (Game.player1 g)
  ∧ 0 ≤ Side.score (Game.player2 g)
  ∧ Side.isAI (Game.player1 g) = false
  ∧ (Side.isAI (Game.player2 g) = false →
       (key_of (Game.type g) = Some "dice" ∨ key_of (Game.type g) = Some "rps")
       ∧ Side.odId (Game.player1 g) ≠ Side.odId (Game.player2 g)).
Proof.
  intros Hg. destruct (reachable_inv cs) as (_ & Hgames & _).
  exact (Hgames k g Hg).
Qed.

Lemma reachable_games_witness :
  Game.id (fresh_game "dice" VNull VNull) = "g1"
  ∧ 1 ≤ Game.round (fresh_game "dice" VNull VNull).
Proof.
  destruct (reachable_games
              [("a", Register (Some "Ann")); ("b", Register (Some "Bob"));
               ("a", JoinQueue (VStr "dice") "g0"); ("b", JoinQueue (VStr "dice") "g1")]
              "g1" (fresh_game "dice" VNull VNull) eq_refl)
    as (H1 & H2 & _).
  exact (conj H1 H2).
Defined.

(** The type of a human game need not be one of the two strings: ["b"]
    joining with [['dice']] is paired with ["a"], who waits in the dice
    queue, in a game whose type is the array. *)
Lemma array_typed_game_reachable :
  let s := state_of (run initial
             [("a", Register (Some "Ann")); ("b", Register (Some "Bob"));
              ("a", JoinQueue (VStr "dice") "g0");
              ("b", JoinQueue (VObj "dice") "g1")]) in
  game_at s "g1" =
    Some (Game.mk "g1" (VObj "dice") (Side.mk "a" "Ann" 0 VNull false)
            (Side.mk "b" "Bob" 0 VNull false) playing 1)
  ∧ queues s = Queues.mk [] [].
Proof. vm_compute. split; reflexivity. Qed.

(** X24.  In every reachable state each leaderboard entry has a score of
    10 times its wins and no negative count, no two entries share an id,
    and every registered connection has an entry. *)
Theorem reachable_leaderboard (cs : list (string * Cmd)) :
  let s := state_of (run initial cs) in
  Forall (λ e, Entry.score e = 10 * Entry.wins e
               ∧ 0 ≤ Entry.wins e ∧ 0 ≤ Entry.losses e) (leaderboard s)
  ∧ NoDup (Entry.odId <$> leaderboard s)
  ∧ ∀ k, is_Some (players s !! k) → is_Some (entry_of s k).
Proof.
  destruct (reachable_inv cs) as (_ & _ & (H1 & H2 & H3) & _).
  split; [done|]. split; [done|]. intros k Hk. specialize (H3 k Hk).
  unfold lb_has in H3. unfold entry_of. by destruct (lb_get _ _).
Qed.

(** X25.  In every reachable state a player record is stored under its
    own id, and the game it refers to, if any, exists. *)
Theorem reachable_players (cs : list (string * Cmd)) (k : string) (p : Player.t) :
  players (state_of (run initial cs)) !! k = Some p →
  Player.odId p = k
  ∧ ∀ g, Player.currentGame p = Some g →
      is_Some (games (state_of (run initial cs)) !! g).
Proof.
  intros Hp. destruct (reachable_inv cs) as (_ & _ & _ & Hps).
  exact (Hps k p Hp).
Qed.

Lemma reachable_players_witness :
  Player.odId (Player.mk "a" "Ann" (Some "g1")) = "a"
  ∧ is_Some (games (paired "dice") !! "g1").
Proof.
  destruct (reachable_players
              [("a", Register (Some "Ann")); ("b", Register (Some "Bob"));
               ("c", Register (Some "Cy"));
               ("a", JoinQueue (VStr "dice") "g0"); ("b", JoinQueue (VStr "dice") "g1")]
              "a" (Player.mk "a" "Ann" (Some "g1")) eq_refl) as (H1 & H2).
  exact (conj H1 (H2 "g1" eq_refl)).
Defined.

(** ** What never goes back *)

Lemma game_advanced_refl (g : Game.t) : game_advanced g g.
Proof. by repeat split. Qed.

Lemma game_advanced_trans (g1 g2 g3 : Game.t) :
  game_advanced g1 g2 → game_advanced g2 g3 → game_advanced g1 g3.
Proof.
  intros (A1 & A2 & A3 & A4 & A5 & A6 & A7 & A8 & A9)
         (B1 & B2 & B3 & B4 & B5 & B6 & B7 & B8 & B9).
  repeat split; try congruence; try lia.
  intros He. rewrite <- (A9 He). apply B9. by rewrite (A9 He).
Qed.

Lemma game_advanced_set_status (g : Game.t) :
  game_advanced g (Game.set_status ended g).
Proof.
  repeat split; try done. intros He. destruct g; simpl in *. by subst.
Qed.

Lemma on_move_other_games (s : State) (sid gameId k : string) (mv : jsval)
    (r : Rnd) :
  gameId ≠ k → games (on_move s sid gameId mv r).1 !! k = games s !! k.
Proof.
  intros Hne. unfold on_move, invalid_state.
  repeat case_match; simpl; by rewrite ?lookup_insert_ne.
Qed.

Lemma on_move_game_advanced (s : State) (sid gameId : string) (mv : jsval)
    (r : Rnd) (g : Game.t) :
  games s !! gameId = Some g →
  ∃ g', games (on_move s sid gameId mv r).1 !! gameId = Some g'
        ∧ game_advanced g g'.
Proof.
  intros Hg.
  destruct (players s !! sid) as [player|] eqn:Hp;
    [|rewrite on_move_invalid by auto; eauto using game_advanced_refl].
  destruct (decide (Game.status g = playing)) as [Hs|Hs];
    [|rewrite on_move_invalid;
      [eauto using game_advanced_refl
      |right; right; rewrite Hg; simpl; by destruct (Game.status g)]].
  destruct (recorded_frame sid mv (u_ai r) g)
    as (E1 & _ & E2 & E3 & E4 & E5 & E6 & E7 & E8).
  pose proof (recorded_id sid mv (u_ai r) g) as E9.
  destruct (both_moved sid (recorded sid mv (u_ai r) g)) eqn:Hb.
  - destruct (on_move_resolved s sid gameId mv r g player Hg Hp Hs Hb)
      as (o & -> & _). simpl. rewrite lookup_insert_eq.
    eexists. split; [reflexivity|].
    destruct (processRound_frame (recorded sid mv (u_ai r) g) (leaderboard s)
                (u_p1 r) (u_p2 r)) as (F1 & F2 & _ & F3 & F4 & F5 & F6 & F7 & F8).
    pose proof (processRound_round (recorded sid mv (u_ai r) g) (leaderboard s)
                  (u_p1 r) (u_p2 r)) as F9.
    repeat split; simpl; try congruence; try lia.
  - rewrite (on_move_pending s sid gameId mv r g player Hg Hp Hs Hb). simpl.
    rewrite lookup_insert_eq. eexists. split; [reflexivity|].
    repeat split; try congruence; try lia.
Qed.

Lemma handle_game_advanced (s : State) (sid : string) (c : Cmd) (k : string)
    (g : Game.t) :
  games s !! k = Some g → creates_no k c →
  ∃ g', games (state_of (handle s sid c)) !! k = Some g' ∧ game_advanced g g'.
Proof.
  intros Hg Hc. destruct c as [name|gt gid|gt|gt gid|gameId mv r| | |]; simpl in *.
  - eauto using game_advanced_refl.
  - exists g. split; [|apply game_advanced_refl].
    unfold on_join_queue, createGame.
    repeat case_match; simplify_eq; simpl; by rewrite ?lookup_insert_ne.
  - exists g. split; [|apply game_advanced_refl].
    unfold on_leave_queue. by repeat case_match.
  - exists g. split; [|apply game_advanced_refl].
    unfold on_play_ai, createGame.
    repeat case_match; simplify_eq; simpl; by rewrite ?lookup_insert_ne.
  - destruct (decide (gameId = k)) as [->|Hne].
    + by apply on_move_game_advanced.
    + exists g. split; [|apply game_advanced_refl].
      by rewrite on_move_other_games.
  - unfold on_leave_game.
    destruct (players s !! sid) as [player|]; [|eauto using game_advanced_refl].
    destruct (truthy_ref _); simpl; [|eauto using game_advanced_refl].
    destruct (games s !! default "" (Player.currentGame player))
      as [game|] eqn:Hgame; simpl; [|eauto using game_advanced_refl].
    destruct (decide (default "" (Player.currentGame player) = k)) as [Hk|Hk].
    + rewrite Hk in *. simplify_eq. exists (Game.set_status ended g).
      split; [|apply game_advanced_set_status].
      destruct (Side.isAI _); simpl; by rewrite lookup_insert_eq.
    + exists g. split; [|apply game_advanced_refl].
      destruct (Side.isAI _); simpl; by rewrite lookup_insert_ne.
  - eauto using game_advanced_refl.
  - unfold on_disconnect.
    destruct (players s !! sid) as [player|]; [|eauto using game_advanced_refl].
    destruct (truthy_ref _); simpl; [|eauto using game_advanced_refl].
    destruct (games s !! default "" (Player.currentGame player))
      as [game|] eqn:Hgame; simpl; [|eauto using game_advanced_refl].
    case_bool_decide; simpl; [|eauto using game_advanced_refl].
    destruct (decide (default "" (Player.currentGame player) = k)) as [Hk|Hk].
    + rewrite Hk in *. simplify_eq. exists (Game.set_status ended g).
      split; [by rewrite lookup_insert_eq | apply game_advanced_set_status].
    + exists g. split; [by rewrite lookup_insert_ne | apply game_advanced_refl].
Qed.

(** X26.  As long as no new game is created under its id, a game is never
    deleted and only moves forward: its id, type, sides and AI flag stay,
    its round counter and scores never decrease, and once it has ended it
    is never modified again. *)
Theorem game_only_advances (cs : list (string * Cmd)) :
  ∀ (s : State) (k : string) (g : Game.t),
    games s !! k = Some g →
    Forall (λ c, creates_no k c.2) cs →
    ∃ g', games (state_of (run s cs)) !! k = Some g'
          ∧ Game.id g' = Game.id g
          ∧ Game.type g' = Game.type g
          ∧ Side.odId (Game.player1 g') = Side.odId (Game.player1 g)
          ∧ Side.odId (Game.player2 g') = Side.odId (Game.player2 g)
          ∧ Side.isAI (Game.player2 g') = Side.isAI (Game.player2 g)
          ∧ Game.round g ≤ Game.round g'
          ∧ Side.score (Game.player1 g) ≤ Side.score (Game.player1 g')
          ∧ Side.score (Game.player2 g) ≤ Side.score (Game.player2 g')
          ∧ (Game.status g = ended → g' = g).
Proof.
  induction cs as [|[sid c] cs IH]; intros s k g Hg Hcs; simpl.
  - exists g. split; [done|]. apply game_advanced_refl.
  - apply Forall_cons in Hcs as [Hc Hcs].
    destruct (handle_game_advanced s sid c k g Hg Hc) as (g1 & Hg1 & Ha1).
    destruct (handle s sid c) as [s1 out1|s1 out1]; simpl in *; [|by eauto].
    destruct (IH s1 k g1 Hg1 Hcs) as (g2 & Hg2 & Ha2).
    exists g2. split; [by destruct (run s1 cs)|].
    by apply (game_advanced_trans g g1 g2).
Qed.

Lemma game_only_advances_witness :
  ∃ g', games (state_of (run (paired "dice")
                           [("a", LeaveGame); ("b", Move "g1" (VStr "roll") no_rnd);
                            ("b", LeaveGame)])) !! "g1" = Some g'
        ∧ Game.round (fresh_game "dice" VNull VNull) ≤ Game.round g'.
Proof.
  destruct (game_only_advances
              [("a", LeaveGame); ("b", Move "g1" (VStr "roll") no_rnd);
               ("b", LeaveGame)]
              (paired "dice") "g1" (fresh_game "dice" VNull VNull) eq_refl)
    as (g' & H1 & _ & _ & _ & _ & _ & H2 & _).
  { repeat constructor. }
  exists g'. exact (conj H1 H2).
Defined.

Lemma entry_advanced_refl (e : Entry.t) : entry_advanced e e.
Proof. by repeat split. Qed.

Lemma entry_advanced_trans (e1 e2 e3 : Entry.t) :
  entry_advanced e1 e2 → entry_advanced e2 e3 → entry_advanced e1 e3.
Proof.
  intros (A1 & A2 & A3 & A4 & A5) (B1 & B2 & B3 & B4 & B5).
  repeat split; try congruence; lia.
Qed.

Lemma update_entry_advanced (k' : string) (won : bool) (lb : Leaderboard)
    (k : string) (e : Entry.t) :
  lb_get k lb = Some e →
  ∃ e', lb_get k (updateLeaderboard k' won lb) = Some e' ∧ entry_advanced e e'.
Proof.
  intros He. destruct (decide (k' = k)) as [->|Hne].
  - rewrite lb_get_update_eq, He. simpl. eexists. split; [done|].
    destruct won; repeat split; simpl; lia.
  - rewrite lb_get_update_ne by done. eauto using entry_advanced_refl.
Qed.

Lemma round_entry_advanced (g : Game.t) (lb : Leaderboard) (u1 u2 : Q)
    (k : string) (e : Entry.t) :
  lb_get k lb = Some e →
  ∃ e', lb_get k (processRound g lb u1 u2).1.2 = Some e' ∧ entry_advanced e e'.
Proof.
  intros He.
  destruct (processRound_leaderboard_shape g lb u1 u2)
    as [-> | (a & b & w1 & w2 & ->)]; [eauto using entry_advanced_refl|].
  destruct (update_entry_advanced a w1 lb k e He) as (e1 & H1 & A1).
  destruct (update_entry_advanced b w2 _ k e1 H1) as (e2 & H2 & A2).
  eauto using entry_advanced_trans.
Qed.

Lemma on_join_queue_leaderboard (s : State) (sid : string) (gameType : jsval) (gid : string) :
  leaderboard (state_of (on_join_queue s sid gameType gid)) = leaderboard s.
Proof. unfold on_join_queue, createGame. by repeat case_match. Qed.

Lemma on_move_leaderboard (s : State) (sid gameId : string) (mv : jsval) (r : Rnd) :
  leaderboard (on_move s sid gameId mv r).1 = leaderboard s
  ∨ ∃ game player,
      games s !! gameId = Some game ∧ players s !! sid = Some player
      ∧ Game.status game = playing
      ∧ both_moved sid (recorded sid mv (u_ai r) game) = true
      ∧ leaderboard (on_move s sid gameId mv r).1
        = (processRound (recorded sid mv (u_ai r) game) (leaderboard s)
             (u_p1 r) (u_p2 r)).1.2.
Proof.
  destruct (games s !! gameId) as [game|] eqn:Hg;
    [|left; by rewrite on_move_invalid by auto].
  destruct (players s !! sid) as [player|] eqn:Hp;
    [|left; by rewrite on_move_invalid by auto].
  destruct (decide (Game.status game = playing)) as [Hs|Hs];
    [|left; rewrite on_move_invalid; [done|]; right; right; rewrite Hg; simpl;
      by destruct (Game.status game)].
  destruct (both_moved sid (recorded sid mv (u_ai r) game)) eqn:Hb.
  - right. exists game, player.
    destruct (on_move_resolved s sid gameId mv r game player Hg Hp Hs Hb)
      as (o & -> & _). by repeat split.
  - left. by rewrite (on_move_pending s sid gameId mv r game player Hg Hp Hs Hb).
Qed.

Lemma handle_entry_advanced (s : State) (sid : string) (c : Cmd) (k : string)
    (e : Entry.t) :
  entry_of s k = Some e →
  ∃ e', entry_of (state_of (handle s sid c)) k = Some e' ∧ entry_advanced e e'.
Proof.
  unfold entry_of. intros He.
  destruct c as [name|gt gid|gt|gt gid|gameId mv r| | |]; simpl.
  - exists e. split; [|apply entry_advanced_refl]. unfold on_register. simpl.
    destruct (lb_has sid (leaderboard s)); simpl; [done|].
    by rewrite lb_get_app_entry, He.
  - rewrite on_join_queue_leaderboard. eauto using entry_advanced_refl.
  - exists e. split; [|apply entry_advanced_refl].
    unfold on_leave_queue. by repeat case_match.
  - exists e. split; [|apply entry_advanced_refl].
    unfold on_play_ai, createGame. by repeat case_match.
  - destruct (on_move_leaderboard s sid gameId mv r)
      as [-> | (game & player & _ & _ & _ & _ & ->)];
      [eauto using entry_advanced_refl|].
    by apply round_entry_advanced.
  - unfold on_leave_game.
    destruct (players s !! sid) as [player|]; [|eauto using entry_advanced_refl].
    destruct (truthy_ref _); simpl; [|eauto using entry_advanced_refl].
    destruct (games s !! _) as [game|]; simpl; [|eauto using entry_advanced_refl].
    destruct (Side.isAI _); simpl; [eauto using entry_advanced_refl|].
    destruct (update_entry_advanced (Side.odId (opponent_of sid game)) true
                (leaderboard s) k e He) as (e1 & H1 & A1).
    destruct (update_entry_advanced sid false _ k e1 H1) as (e2 & H2 & A2).
    eauto using entry_advanced_trans.
  - eauto using entry_advanced_refl.
  - rewrite on_disconnect_leaderboard. eauto using entry_advanced_refl.
Qed.

(** X27.  A leaderboard entry is never removed and never renamed, whatever
    the connections send, a disconnect of its owner included; its wins,
    losses and score never decrease. *)
Theorem entries_only_advance (cs : list (string * Cmd)) :
  ∀ (s : State) (k : string) (e : Entry.t),
    entry_of s k = Some e →
    ∃ e', entry_of (state_of (run s cs)) k = Some e'
          ∧ Entry.odId e' = Entry.odId e
          ∧ Entry.name e' = Entry.name e
          ∧ Entry.wins e ≤ Entry.wins e'
          ∧ Entry.losses e ≤ Entry.losses e'
          ∧ Entry.score e ≤ Entry.score e'.
Proof.
  induction cs as [|[sid c] cs IH]; intros s k e He; simpl.
  - exists e. split; [done|]. apply entry_advanced_refl.
  - destruct (handle_entry_advanced s sid c k e He) as (e1 & H1 & A1).
    destruct (handle s sid c) as [s1 out1|s1 out1]; simpl in *; [|by eauto].
    destruct (IH s1 k e1 H1) as (e2 & H2 & A2).
    exists e2. split; [by destruct (run s1 cs)|].
    by apply (entry_advanced_trans e e1 e2).
Qed.

Lemma entries_only_advance_witness :
  ∃ e', entry_of (state_of (run (paired "dice")
                              [("b", Disconnect); ("a", Register (Some "Zed"))])) "b"
          = Some e'
        ∧ Entry.name e' = "Bob".
Proof.
  destruct (entries_only_advance [("b", Disconnect); ("a", Register (Some "Zed"))]
              (paired "dice") "b" (Entry.mk "b" "Bob" 0 0 0) eq_refl)
    as (e' & H1 & _ & H2 & _).
  exists e'. exact (conj H1 H2).
Defined.

(** ** The balance of the leaderboard *)

Lemma lb_has_update (x k : string) (won : bool) (lb : Leaderboard) :
  lb_has x (updateLeaderboard k won lb) = lb_has x lb.
Proof.
  apply eq_true_iff_eq.
  by rewrite !lb_has_elem_of, updateLeaderboard_keys.
Qed.

Lemma total_update (k : string) (won : bool) (lb : Leaderboard) :
  lb_has k lb = true →
  total Entry.wins (updateLeaderboard k won lb)
    = total Entry.wins lb + (if won then 1 else 0)
  ∧ total Entry.losses (updateLeaderboard k won lb)
    = total Entry.losses lb + (if won then 0 else 1).
Proof.
  unfold lb_has, lb_get. induction lb as [|e lb IH]; simpl; [done|].
  destruct (String.eqb (Entry.odId e) k); simpl.
  - intros _. destruct won; simpl; lia.
  - intros H. destruct (IH H) as [-> ->]. lia.
Qed.

Lemma total_app_entry (f : Entry.t → Z) (lb : Leaderboard) (e : Entry.t) :
  total f (lb ++ [e]) = total f lb + f e.
Proof. unfold total. induction lb as [|x lb IH]; simpl; lia. Qed.

Lemma total_pair (a b : string) (w : bool) (lb : Leaderboard) :
  lb_has a lb = true → lb_has b lb = true →
  total Entry.wins (updateLeaderboard b (negb w) (updateLeaderboard a w lb))
    = total Entry.wins lb + 1
  ∧ total Entry.losses (updateLeaderboard b (negb w) (updateLeaderboard a w lb))
    = total Entry.losses lb + 1.
Proof.
  intros Ha Hb.
  destruct (total_update a w lb Ha) as [W1 L1].
  destruct (total_update b (negb w) (updateLeaderboard a w lb)) as [W2 L2];
    [by rewrite lb_has_update|].
  rewrite W2, L2, W1, L1. destruct w; simpl; lia.
Qed.

Lemma total_two_losses (a b : string) (lb : Leaderboard) :
  lb_has a lb = true → lb_has b lb = true →
  total Entry.wins (updateLeaderboard b false (updateLeaderboard a false lb))
    = total Entry.wins lb
  ∧ total Entry.losses (updateLeaderboard b false (updateLeaderboard a false lb))
    = total Entry.losses lb + 2.
Proof.
  intros Ha Hb.
  destruct (total_update a false lb Ha) as [W1 L1].
  destruct (total_update b false (updateLeaderboard a false lb)) as [W2 L2];
    [by rewrite lb_has_update|].
  rewrite W2, L2, W1, L1. lia.
Qed.

Lemma game_listed_mono (lb lb' : Leaderboard) (g g' : Game.t) :
  (∀ x, lb_has x lb = true → lb_has x lb' = true) →
  Side.odId (Game.player1 g') = Side.odId (Game.player1 g) →
  Side.odId (Game.player2 g') = Side.odId (Game.player2 g) →
  Side.isAI (Game.player2 g') = Side.isAI (Game.player2 g) →
  game_listed lb g → game_listed lb' g'.
Proof.
  intros Hm E1 E2 E3 [H1 H2]. unfold game_listed. rewrite E1, E2, E3. auto.
Qed.

Lemma sides_listed_mono (gs : gmap string Game.t) (lb lb' : Leaderboard) :
  (∀ x, lb_has x lb = true → lb_has x lb' = true) →
  sides_listed gs lb → sides_listed gs lb'.
Proof. intros Hm Hs k g Hg. by apply (game_listed_mono lb lb' g g), (Hs k). Qed.

Lemma sides_listed_insert (gs : gmap string Game.t) (lb : Leaderboard)
    (k : string) (g : Game.t) :
  sides_listed gs lb → game_listed lb g → sides_listed (<[k := g]> gs) lb.
Proof.
  intros Hs Hg k' g'. rewrite lookup_insert_Some.
  intros [[<- <-] | [_ H]]; [done | by apply (Hs k')].
Qed.

(** A round changes no entry, or books a win and a loss, or, when the
    type of a game between two humans is neither of the two strings, a loss
    for each side. *)
Lemma processRound_leaderboard_cases (g : Game.t) (lb : Leaderboard) (u1 u2 : Q) :
  (processRound g lb u1 u2).1.2 = lb
  ∨ (Side.isAI (Game.player2 g) = false
     ∧ ∃ w, (processRound g lb u1 u2).1.2
            = updateLeaderboard (Side.odId (Game.player2 g)) (negb w)
                (updateLeaderboard (Side.odId (Game.player1 g)) w lb))
  ∨ (Side.isAI (Game.player2 g) = false
     ∧ ¬ recognized (Game.type g)
     ∧ (processRound g lb u1 u2).1.2
       = updateLeaderboard (Side.odId (Game.player2 g)) false
           (updateLeaderboard (Side.odId (Game.player1 g)) false lb)).
Proof.
  destruct (Side.isAI (Game.player2 g)) eqn:Hai;
    [left; by apply processRound_ai|].
  unfold processRound.
  destruct (strict_eq (Game.type g) (VStr "dice")) eqn:Hd; simpl.
  - destruct (rollDice u1 >? rollDice u2); simpl; rewrite ?Hai; simpl;
      [right; left; split; [done|]; by exists true|].
    destruct (rollDice u1 <? rollDice u2); simpl; rewrite ?Hai; simpl;
      [right; left; split; [done|]; by exists false | by left].
  - destruct (strict_eq (Game.type g) (VStr "rps")) eqn:Hr; simpl.
    + destruct (getRPSResult _ _); simpl; rewrite ?Hai; simpl;
        [by left | right; left; split; [done|]; by exists true
         | right; left; split; [done|]; by exists false].
    + rewrite Hai. simpl. right. right. split; [done|]. split; [|done].
      intros [Ht | Ht]; rewrite Ht in *; by vm_compute in Hd, Hr.
Qed.

Lemma on_join_queue_games (s : State) (sid : string) (gameType : jsval) (gid : string) :
  Inv s →
  games (state_of (on_join_queue s sid gameType gid)) = games s
  ∨ ∃ g, games (state_of (on_join_queue s sid gameType gid)) = <[gid := g]> (games s)
         ∧ is_Some (players s !! Side.odId (Game.player1 g))
         ∧ is_Some (players s !! Side.odId (Game.player2 g))
         ∧ Game.type g = gameType
         ∧ names_queue gameType.
Proof.
  intros (_ & _ & _ & Hps). unfold on_join_queue, createGame.
  repeat case_match; simplify_eq; simpl; try (by left).
  right. eexists. split; [reflexivity|]. simpl.
  match goal with
  | H1 : players s !! _ = Some ?p1, H2 : players s !! _ = Some ?p2 |- 
      is_Some (players s !! Player.odId ?p1) ∧ _ =>
      destruct (Hps _ _ H1) as [-> _]; destruct (Hps _ _ H2) as [-> _]
  end.
  repeat split; eauto using queues_get_names.
Qed.

Lemma names_queue_scalar (gameType : jsval) :
  names_queue gameType → is_obj gameType = false → recognized gameType.
Proof.
  unfold names_queue, recognized.
  destruct gameType; simpl; intros [[=] | [=]] Ho; subst; auto; done.
Qed.

(** What one event does to the two totals: it adds as much to the wins as
    to the losses, or it adds two losses, which takes a game between two
    humans whose type is neither of the two strings. *)
Lemma handle_totals (s : State) (sid : string) (c : Cmd) :
  Inv s → sides_listed (games s) (leaderboard s) →
  let s' := state_of (handle s sid c) in
  sides_listed (games s') (leaderboard s')
  ∧ ∃ w l,
      total Entry.wins (leaderboard s') = total Entry.wins (leaderboard s) + w
      ∧ total Entry.losses (leaderboard s')
        = total Entry.losses (leaderboard s) + l
      ∧ (w = l ∨ (w = 0 ∧ l = 2 ∧ ¬ human_games_typed s)).
Proof.
  intros HI Hsl.
  pose proof HI as (_ & Hgames & (_ & _ & Hhas) & Hps).
  assert (∀ lb : Leaderboard,
            ∃ w l, total Entry.wins lb = total Entry.wins lb + w
                   ∧ total Entry.losses lb = total Entry.losses lb + l
                   ∧ (w = l ∨ (w = 0 ∧ l = 2 ∧ ¬ human_games_typed s)))
    as Hsame.
  { intros lb. exists 0, 0. split; [lia|]. split; [lia|]. by left. }
  destruct c as [name|gt gid|gt|gt gid|gameId mv r| | |]; simpl.
  - unfold on_register. simpl.
    destruct (lb_has sid (leaderboard s)); simpl; [by split|]. split.
    + apply (sides_listed_mono _ (leaderboard s)); [|done].
      intros x Hx. apply lb_has_elem_of. rewrite fmap_app, elem_of_app. left.
      by apply lb_has_elem_of.
    + exists 0, 0. rewrite !total_app_entry. simpl.
      split; [lia|]. split; [lia|]. by left.
  - rewrite on_join_queue_leaderboard. split; [|done].
    destruct (on_join_queue_games s sid gt gid HI)
      as [-> | (g & -> & H1 & H2 & _)]; [done|].
    apply sides_listed_insert; [done|]. split; auto.
  - unfold on_leave_queue. by repeat case_match.
  - unfold on_play_ai, createGame.
    destruct (players s !! sid) as [player|] eqn:Hp; [|by split]. simpl.
    split; [|done]. apply sides_listed_insert; [done|].
    split; simpl; [|done]. destruct (Hps sid player Hp) as [-> _]. by eauto.
  - destruct (games s !! gameId) as [game|] eqn:Hg;
      [|rewrite on_move_invalid by auto; by split].
    destruct (on_move_game_advanced s sid gameId mv r game Hg)
      as (g' & Hg' & (_ & _ & A1 & A2 & A3 & _)).
    assert (∀ lb', (∀ x, lb_has x (leaderboard s) = true → lb_has x lb' = true) →
              sides_listed (games (on_move s sid gameId mv r).1) lb') as Hside.
    { intros lb' Hm k g Hk. destruct (decide (gameId = k)) as [<-|Hne].
      - rewrite Hg' in Hk. simplify_eq.
        by apply (game_listed_mono (leaderboard s) lb' game g), (Hsl gameId).
      - rewrite on_move_other_games in Hk by done.
        by apply (game_listed_mono (leaderboard s) lb' g g), (Hsl k). }
    destruct (on_move_leaderboard s sid gameId mv r)
      as [Hlb | (game0 & player & Hg0 & _ & _ & _ & Hlb)].
    { rewrite Hlb. split; [by apply Hside | done]. }
    simplify_eq.
    destruct (recorded_frame sid mv (u_ai r) game)
      as (_ & _ & E2 & _ & _ & E5 & E6 & _ & E8).
    destruct (Hsl gameId game Hg) as [L1 L2].
    destruct (processRound_leaderboard_cases (recorded sid mv (u_ai r) game)
                (leaderboard s) (u_p1 r) (u_p2 r))
      as [Hsame' | [(Hai & w & Hupd) | (Hai & Hnrec & Hupd)]].
    { rewrite Hlb, Hsame'. split; [by apply Hside | done]. }
    { rewrite E8 in Hai. rewrite E5, E6 in Hupd. rewrite Hlb, Hupd. split.
      - apply Hside. intros x Hx. by rewrite !lb_has_update.
      - destruct (total_pair (Side.odId (Game.player1 game))
                    (Side.odId (Game.player2 game)) w (leaderboard s))
          as [W L]; auto.
        exists 1, 1. split; [done|]. split; [done|]. by left. }
    rewrite E8 in Hai. rewrite E5, E6 in Hupd. rewrite E2 in Hnrec.
    rewrite Hlb, Hupd. split.
    + apply Hside. intros x Hx. by rewrite !lb_has_update.
    + destruct (total_two_losses (Side.odId (Game.player1 game))
                  (Side.odId (Game.player2 game)) (leaderboard s))
        as [W L]; auto.
      exists 0, 2. split; [lia|]. split; [done|]. right.
      repeat split. intros Ht. by apply Hnrec, (Ht gameId game Hg).
  - unfold on_leave_game.
    destruct (players s !! sid) as [player|] eqn:Hp; [|by split].
    destruct (truthy_ref _); simpl; [|by split].
    destruct (games s !! default "" (Player.currentGame player))
      as [game|] eqn:Hg; simpl; [|by split].
    destruct (Hsl _ game Hg) as [L1 L2].
    assert (game_listed (leaderboard s) (Game.set_status ended game)) as Hl
      by done.
    destruct (Side.isAI (opponent_of sid game)) eqn:Hai; simpl.
    { split; [by apply sides_listed_insert | done]. }
    assert (lb_has (Side.odId (opponent_of sid game)) (leaderboard s) = true) as Ho.
    { unfold opponent_of, opponent in *.
      destruct (String.eqb _ sid); [by apply L2 | done]. }
    split.
    + apply (sides_listed_mono _ (leaderboard s));
        [intros x Hx; by rewrite !lb_has_update|].
      by apply sides_listed_insert.
    + destruct (total_pair (Side.odId (opponent_of sid game)) sid true
                  (leaderboard s)) as [W L]; [done | apply Hhas; by eauto |].
      exists 1, 1. split; [done|]. split; [done|]. by left.
  - by split.
  - rewrite on_disconnect_leaderboard. split; [|done].
    unfold on_disconnect.
    destruct (players s !! sid) as [player|] eqn:Hp; [|done].
    destruct (truthy_ref _); simpl; [|done].
    destruct (games s !! default "" (Player.currentGame player))
      as [game|] eqn:Hg; simpl; [|done].
    case_bool_decide; simpl; [|done].
    apply sides_listed_insert; [done|]. by apply (Hsl _ game Hg).
Qed.

Lemma handle_ledger (s : State) (sid : string) (c : Cmd) :
  Inv s → Ledger s → Ledger (state_of (handle s sid c)).
Proof.
  intros HI [Hsl Hle].
  destruct (handle_totals s sid c HI Hsl) as (Hsl' & w & l & W & L & Hwl).
  split; [done|]. rewrite W, L. destruct Hwl as [-> | (-> & -> & _)]; lia.
Qed.

(** Without an array or object as the game type of [join_queue], the games
    between two humans keep to the two strings. *)
Lemma handle_typed (s : State) (sid : string) (c : Cmd) :
  Inv s → scalar_type c = true →
  human_games_typed s → human_games_typed (state_of (handle s sid c)).
Proof.
  intros HI Hc Ht.
  assert (∀ k0 game, games s !! k0 = Some game →
            human_games_typed
              (set_games (<[k0 := Game.set_status ended game]> (games s)) s))
    as Hended.
  { intros k0 game Hg k g. simpl. rewrite lookup_insert_Some.
    intros [[<- <-] | [_ H]]; [exact (Ht k0 game Hg) | by apply (Ht k)]. }
  destruct c as [name|gt gid|gt|gt gid|gameId mv r| | |]; simpl in *.
  - done.
  - destruct (on_join_queue_games s sid gt gid HI)
      as [Hsame | (g & Hnew & _ & _ & Hty & Hn)];
      intros k g'; [by rewrite Hsame; apply Ht|].
    rewrite Hnew, lookup_insert_Some.
    intros [[<- <-] | [_ H]]; [|by apply (Ht k)].
    intros _. rewrite Hty. apply names_queue_scalar; [done|].
    by apply negb_true_iff.
  - unfold on_leave_queue. by repeat case_match.
  - unfold on_play_ai, createGame.
    destruct (players s !! sid) as [player|]; [|done]. simpl.
    intros k g. simpl. rewrite lookup_insert_Some.
    intros [[<- <-] | [_ H]]; [done | by apply (Ht k)].
  - intros k g' Hk. destruct (decide (gameId = k)) as [<-|Hne];
      [|rewrite on_move_other_games in Hk by done; by apply (Ht k)].
    destruct (games s !! gameId) as [game|] eqn:Hg;
      [|rewrite on_move_invalid in Hk by auto; simpl in Hk; congruence].
    destruct (on_move_game_advanced s sid gameId mv r game Hg)
      as (g2 & Hg2 & (_ & A0 & _ & _ & A3 & _)).
    rewrite Hg2 in Hk. simplify_eq. rewrite A0, A3. by apply (Ht gameId).
  - unfold on_leave_game.
    destruct (players s !! sid) as [player|]; [|done].
    destruct (truthy_ref _); simpl; [|done].
    destruct (games s !! default "" (Player.currentGame player))
      as [game|] eqn:Hg; simpl; [|done].
    destruct (Side.isAI _); simpl; intros k g Hk; by apply (Hended _ _ Hg k g).
  - done.
  - unfold on_disconnect.
    destruct (players s !! sid) as [player|]; [|done].
    destruct (truthy_ref _); simpl; [|done].
    destruct (games s !! default "" (Player.currentGame player))
      as [game|] eqn:Hg; simpl; [|done].
    case_bool_decide; simpl; [|done].
    intros k g Hk. by apply (Hended _ _ Hg k g).
Qed.

Lemma run_ledger (cs : list (string * Cmd)) :
  ∀ s, Inv s → Ledger s → Ledger (state_of (run s cs)).
Proof.
  induction cs as [|[sid c] cs IH]; intros s HI HL; simpl; [done|].
  pose proof (handle_inv s sid c HI) as HI1.
  pose proof (handle_ledger s sid c HI HL) as HL1.
  destruct (handle s sid c) as [s1 out1|s1 out1]; simpl in *; [|done].
  specialize (IH s1 HI1 HL1). by destruct (run s1 cs).
Qed.

Lemma run_balanced (cs : list (string * Cmd)) :
  ∀ s, Inv s → sides_listed (games s) (leaderboard s) →
    human_games_typed s →
    Forall (λ c : string * Cmd, scalar_type c.2 = true) cs →
    total Entry.wins (leaderboard s) = total Entry.losses (leaderboard s) →
    total Entry.wins (leaderboard (state_of (run s cs)))
    = total Entry.losses (leaderboard (state_of (run s cs))).
Proof.
  induction cs as [|[sid c] cs IH]; intros s HI Hsl Ht Hcs Hbal; simpl; [done|].
  apply Forall_cons_1 in Hcs as [Hc Hcs]. simpl in Hc.
  pose proof (handle_inv s sid c HI) as HI1.
  pose proof (handle_typed s sid c HI Hc Ht) as Ht1.
  destruct (handle_totals s sid c HI Hsl) as (Hsl1 & w & l & W & L & Hwl).
  assert (total Entry.wins (leaderboard (state_of (handle s sid c)))
          = total Entry.losses (leaderboard (state_of (handle s sid c))))
    as Hbal1.
  { rewrite W, L. destruct Hwl as [-> | (_ & _ & Hn)]; [lia | done]. }
  destruct (handle s sid c) as [s1 out1|s1 out1]; simpl in *; [|done].
  specialize (IH s1 HI1 Hsl1 Ht1 Hcs Hbal1). by destruct (run s1 cs).
Qed.

Lemma initial_sides_listed : sides_listed (games initial) (leaderboard initial).
Proof.
  intros k g Hk. exfalso. revert Hk.
  unfold initial. cbn [games]. by rewrite lookup_empty.
Qed.

(** X28.  In every reachable state the wins recorded on the leaderboard
    do not exceed the losses recorded on it: every win, from a round or
    from a forfeit, is entered together with one loss, and both land on
    existing entries.  The two totals are equal as long as no [join_queue]
    carried an array or an object as its game type; a round of the game
    such a request can create books a loss for each side and no win. *)
Theorem leaderboard_balanced (cs : list (string * Cmd)) :
  let lb := leaderboard (state_of (run initial cs)) in
  total Entry.wins lb ≤ total Entry.losses lb
  ∧ (Forall (λ c : string * Cmd, scalar_type c.2 = true) cs →
       total Entry.wins lb = total Entry.losses lb).
Proof.
  split.
  - apply (run_ledger cs initial initial_inv).
    split; [apply initial_sides_listed | done].
  - intros Hcs.
    by apply (run_balanced cs initial initial_inv initial_sides_listed).
Qed.

(** A round of a game made for [['dice']]: both sides are charged a loss,
    nobody a win. *)
Lemma array_typed_round_books_two_losses :
  let s := state_of (run initial
             [("a", Register (Some "Ann")); ("b", Register (Some "Bob"));
              ("a", JoinQueue (VStr "dice") "g0");
              ("b", JoinQueue (VObj "dice") "g1");
              ("a", Move "g1" (VStr "roll") no_rnd);
              ("b", Move "g1" (VStr "roll") no_rnd)]) in
  leaderboard s = [Entry.mk "a" "Ann" 0 1 0; Entry.mk "b" "Bob" 0 1 0]
  ∧ total Entry.wins (leaderboard s) = 0
  ∧ total Entry.losses (leaderboard s) = 2
  ∧ Game.round <$> game_at s "g1" = Some 2.
Proof. vm_compute. repeat split; reflexivity. Qed.

(** X29.  Only [leave_game] and a disconnect end a game: no other command,
    and in particular no round however it comes out, changes the status of
    an existing game, as long as no new game is created under its id. *)
Theorem status_changes_only_by_leaving (s : State) (sid : string) (c : Cmd)
    (k : string) (g : Game.t) :
  games s !! k = Some g →
  leaves c = false →
  creates_no k c →
  Game.status <$> games (state_of (handle s sid c)) !! k = Some (Game.status g).
Proof.
  intros Hg Hl Hc.
  destruct c as [name|gt gid|gt|gt gid|gameId mv r| | |]; simpl in *; try done.
  - by rewrite Hg.
  - unfold on_join_queue, createGame.
    repeat case_match; simplify_eq; simpl;
      rewrite ?lookup_insert_ne by done; by rewrite Hg.
  - unfold on_leave_queue. repeat case_match; simpl; by rewrite Hg.
  - unfold on_play_ai, createGame.
    repeat case_match; simplify_eq; simpl;
      rewrite ?lookup_insert_ne by done; by rewrite Hg.
  - destruct (decide (gameId = k)) as [->|Hne];
      [|rewrite on_move_other_games by done; by rewrite Hg].
    destruct (players s !! sid) as [player|] eqn:Hp;
      [|rewrite on_move_invalid by auto; simpl; by rewrite Hg].
    destruct (decide (Game.status g = playing)) as [Hs|Hs];
      [|rewrite on_move_invalid; [simpl; by rewrite Hg|]; right; right; rewrite Hg;
        simpl; by destruct (Game.status g)].
    destruct (recorded_frame sid mv (u_ai r) g) as (_ & E & _).
    destruct (both_moved sid (recorded sid mv (u_ai r) g)) eqn:Hb.
    + destruct (on_move_resolved s sid k mv r g player Hg Hp Hs Hb)
        as (o & -> & _). simpl. rewrite lookup_insert_eq. simpl.
      destruct (processRound_frame (recorded sid mv (u_ai r) g) (leaderboard s)
                  (u_p1 r) (u_p2 r)) as (_ & _ & -> & _).
      by rewrite E.
    + rewrite (on_move_pending s sid k mv r g player Hg Hp Hs Hb). simpl.
      rewrite lookup_insert_eq. simpl. by rewrite E.
  - by rewrite Hg.
Qed.

Lemma status_changes_only_by_leaving_witness :
  Game.status <$>
    games (state_of (handle rock_pending "b" (Move "g1" (VStr "paper") no_rnd))) !! "g1"
  = Some playing.
Proof.
  exact (status_changes_only_by_leaving rock_pending "b"
           (Move "g1" (VStr "paper") no_rnd) "g1"
           (fresh_game "rps" (VStr "rock") VNull) eq_refl eq_refl I).
Defined.
